(** * ColumnList: the editable, reorderable column table of the table editor

    Shallow embedding of the list and edit-session logic of
    [src/chat2db-client/src/blocks/DatabaseTableEditor/ColumnList/index.tsx].

    The component keeps two pieces of React state: [dataSource], the ordered
    list of column records, and [editingKey], the key of the row in edit
    mode (the empty string when no row was ever put in edit mode).  Every
    handler of the component is embedded as a function on that state.

    Three collaborators live outside the file and are handled as follows.
    - [uuidv4()] (package uuid): the value it returns is an argument of the
      handler that calls it.
    - [form.getFieldsValue()] (antd form store): the object it returns is
      the argument [newData] of [formChange].
    - [arrayMove] (package @dnd-kit/sortable, imported at line 11): embedded
      from the body the package publishes, on the JavaScript semantics of
      [Array.prototype.slice] and [Array.prototype.splice]. *)

From stdpp Require Import base option list strings numbers.

(** ** Data model *)

(** [interface Item] (lines 20-26).  [null] is [None] in [length] and
    [fieldType].  The property [comment] is not declared by the interface
    but the records built at lines 89-96 carry it, and the record built by
    [addData] does not: [None] is the absent (or undefined) property. *)
Module Item.
Record t : Type := mk {
  key : string;
  columnName : string;
  length : option Z;
  fieldType : option string;
  nullable : bool;
  comment : option string;
}.
End Item.

(** One row of [tableDetails.columnList], as read at lines 88-96.  Its type
    is declared outside the file; the fields copied into an [Item] take the
    types [Item] gives them, and [nullable] is the number compared with [0]. *)
Module Column.
Record t : Type := mk {
  name : string;
  dataType : option Z;
  columnType : option string;
  nullable : Z;
  comment : option string;
}.
End Column.

(** [tableDetails] from the context: the object may be absent ([None] at
    the use site), and so may its [columnList]. *)
Record TableDetails : Type := mkTableDetails {
  columnList : option (list Column.t);
}.

(** The object returned by [form.getFieldsValue()]: one optional property
    per [Form.Item] name of the table (lines 124, 147, 169, 193, 207).  The
    outer [option] says whether the property is present in the object. *)
Module FormValues.
Record t : Type := mk {
  columnName : option string;
  length : option (option Z);
  fieldType : option (option string);
  nullable : option bool;
  comment : option (option string);
}.
End FormValues.

(** The component state: [useState<Item[]>([])] and [useState('')]. *)
Record State : Type := mkState {
  dataSource : list Item.t;
  editingKey : string;
}.

Definition initialState : State :=
  {| dataSource := []; editingKey := ""%string |}.

Definition setDataSource (l : list Item.t) (st : State) : State :=
  {| dataSource := l; editingKey := editingKey st |}.

Definition setEditingKey (k : string) (st : State) : State :=
  {| dataSource := dataSource st; editingKey := k |}.

Definition keys (l : list Item.t) : list string := Item.key <$> l.

(** ** JavaScript array primitives *)

Section JsArray.
Context {T : Type}.

(** [a.findIndex(p)]: the index of the first element satisfying [p], or
    [-1].  [i] is the index of the head of [a]. *)
Fixpoint findIndexFrom (p : T → bool) (a : list T) (i : Z) : Z :=
  match a with
  | [] => (-1)%Z
  | x :: a' => if p x then i else findIndexFrom p a' (i + 1)%Z
  end.

Definition findIndex (p : T → bool) (a : list T) : Z := findIndexFrom p a 0%Z.

(** The start index [splice] really uses: a negative [start] counts from
    the end, and the result is clamped to [0 .. len]. *)
Definition actualStart (len start : Z) : Z :=
  if (start <? 0)%Z then Z.max (len + start) 0 else Z.min start len.

(** [a.splice(start, deleteCount, ...items)]: the removed elements and the
    array afterwards. *)
Definition splice (a : list T) (start deleteCount : Z) (items : list T)
  : list T * list T :=
  let len := Z.of_nat (length a) in
  let s := actualStart len start in
  let dc := Z.min (Z.max deleteCount 0) (len - s) in
  (take (Z.to_nat dc) (drop (Z.to_nat s) a),
   take (Z.to_nat s) a ++ items ++ drop (Z.to_nat (s + dc)) a).
End JsArray.

(** [arrayMove(array, from, to)] of @dnd-kit/sortable:
<<
    const newArray = array.slice();
    newArray.splice(to < 0 ? newArray.length + to : to, 0,
                    newArray.splice(from, 1)[0]);
    return newArray;
>>
    The arguments of the outer [splice] are evaluated left to right: the
    insertion index reads [newArray.length] before the inner [splice]
    removes an element.  When the inner [splice] removes nothing,
    [removed[0]] is [undefined] and [undefined] is inserted: the result is
    an array of [option T], [None] being [undefined]. *)
Definition arrayMove {T : Type} (array : list T) (from to : Z) : list (option T) :=
  let newArray := Some <$> array in
  let start := if (to <? 0)%Z then (Z.of_nat (length newArray) + to)%Z else to in
  let '(removed, newArray) := splice newArray from 1 [] in
  let item := default None (head removed) in
  snd (splice newArray start 0 [item]).

(** ** Handlers *)

(** [isEditing] (line 79). *)
Definition isEditing (st : State) (record : Item.t) : bool :=
  (Item.key record =? editingKey st)%string.

(** [edit] (lines 81-84).  [form.setFieldsValue] acts on the form store,
    which is not part of the state. *)
Definition edit (record : Item.t) (st : State) : State :=
  setEditingKey (Item.key record) st.

(** The callback of [columnList.map] (lines 88-96); [uuid] is the value
    [uuidv4()] returns for this row. *)
Definition toItem (uuid : string) (t : Column.t) : Item.t :=
  {| Item.key := uuid;
     Item.columnName := Column.name t;
     Item.length := Column.dataType t;
     Item.fieldType := Column.columnType t;
     Item.nullable := (Column.nullable t =? 0)%Z;
     Item.comment := Column.comment t |}.

(** The effect on [tableDetails] (lines 86-100).  [uuids n] is the value
    [uuidv4()] returns in the call of the callback on row [n]. *)
Definition tableDetailsEffect (uuids : nat → string)
    (tableDetails : option TableDetails) (st : State) : State :=
  match tableDetails with
  | Some td =>
      let list :=
        match columnList td with
        | Some cols => imap (λ n t, toItem (uuids n) t) cols
        | None => []
        end in
      setDataSource list st
  | None => st
  end.

(** [onDragEnd] (lines 224-232): the array the updater passed to
    [setDataSource] returns for [previous], or [previous] itself when the
    guard fails.  [over] is [None] when the drag ends over no row;
    [over?.id] is then [undefined], which no key equals. *)
Definition sameId (active : string) (over : option string) : bool :=
  match over with
  | Some o => (active =? o)%string
  | None => false
  end.

Definition onDragEnd (previous : list Item.t) (active : string)
    (over : option string) : list (option Item.t) :=
  if negb (sameId active over) then
    let activeIndex := findIndex (λ i, (Item.key i =? active)%string) previous in
    let overIndex := findIndex (λ i, sameId (Item.key i) over) previous in
    arrayMove previous activeIndex overIndex
  else Some <$> previous.

(** [{...i, ...newData}] (lines 238-241). *)
Definition merge (i : Item.t) (newData : FormValues.t) : Item.t :=
  {| Item.key := Item.key i;
     Item.columnName := default (Item.columnName i) (FormValues.columnName newData);
     Item.length := default (Item.length i) (FormValues.length newData);
     Item.fieldType := default (Item.fieldType i) (FormValues.fieldType newData);
     Item.nullable := default (Item.nullable i) (FormValues.nullable newData);
     Item.comment := default (Item.comment i) (FormValues.comment newData) |}.

(** [formChange] (lines 234-245). *)
Definition formChange (newData : FormValues.t) (st : State) : State :=
  setDataSource
    ((λ i, if (Item.key i =? editingKey st)%string then merge i newData else i)
       <$> dataSource st) st.

(** [addData] (lines 247-257); [uuid] is the value [uuidv4()] returns. *)
Definition addData (uuid : string) (st : State) : State :=
  let newData :=
    {| Item.key := uuid;
       Item.columnName := ""%string;
       Item.length := None;
       Item.fieldType := None;
       Item.nullable := false;
       Item.comment := None |} in
  edit newData (setDataSource (dataSource st ++ [newData]) st).

(** [deleteData] (lines 259-261). *)
Definition deleteData (st : State) : State :=
  setDataSource
    (filter (λ i, Item.key i ≠ editingKey st) (dataSource st)) st.

Inductive Action : Type := up | down.

(** [moveData] (lines 263-285).  The two reads [dataSource[index]] and
    [dataSource[index ∓ 1]] are inside the array on every path that
    reaches them; the last branch of [swap] is never taken. *)
Definition swap (l : list Item.t) (i j : nat) : list Item.t :=
  match l !! i, l !! j with
  | Some x, Some y => <[j := x]> (<[i := y]> l)
  | _, _ => l
  end.

Definition moveData (action : Action) (st : State) : State :=
  let index := findIndex (isEditing st) (dataSource st) in
  if (index =? -1)%Z then st
  else match action with
       | up =>
           if (index =? 0)%Z then st
           else setDataSource
                  (swap (dataSource st) (Z.to_nat index) (Z.to_nat (index - 1))) st
       | down =>
           if (index =? Z.of_nat (length (dataSource st)) - 1)%Z then st
           else setDataSource
                  (swap (dataSource st) (Z.to_nat index) (Z.to_nat (index + 1))) st
       end.

(** ** Auxiliary definitions for the statements *)

(** [insertAt k x l]: [l] with [x] put at index [k]; what
    [l.splice(k, 0, x)] leaves in [l] for [k] inside [0 .. length l]. *)
Definition insertAt {T : Type} (k : nat) (x : T) (l : list T) : list T :=
  take k l ++ x :: drop k l.

(** The records an array holds: every slot that is not [undefined]. *)
Definition records {T : Type} (a : list (option T)) : list T := omap id a.

Definition hasKey (k : string) (r : Item.t) : bool := (Item.key r =? k)%string.

(** How one field of the merged record is obtained: from the form values
    when they hold the property, from the record otherwise. *)
Definition mergedField {A : Type} (old : A) (buffer : option A) (new : A) : Prop :=
  match buffer with
  | Some v => new = v
  | None => new = old
  end.

(** Three sample records, used where a statement is evaluated. *)
Definition sampleRow (k name : string) : Item.t :=
  {| Item.key := k; Item.columnName := name; Item.length := None;
     Item.fieldType := None; Item.nullable := false; Item.comment := None |}.

Definition rowA : Item.t := sampleRow "A" "id".
Definition rowB : Item.t := sampleRow "B" "name".
Definition rowC : Item.t := sampleRow "C" "created_at".

(** ** The component as a transition system *)

(** The events the component reacts to.  The values drawn from [uuidv4()]
    during the reaction are part of the event. *)
Inductive Event : Type :=
  | TableDetailsChanged (uuids : nat → string) (tableDetails : option TableDetails)
  | CellClicked (record : Item.t)
  | DragEnded (active : string) (over : option string)
  | FormChanged (newData : FormValues.t)
  | AddClicked (uuid : string)
  | DeleteClicked
  | MoveClicked (action : Action).

(** One reaction.  A cell can be clicked only on a row of the table, that
    is a record of [dataSource]; a drag end has a next state when the array
    it computes holds records only. *)
Inductive step : State → Event → State → Prop :=
  | step_tableDetails uuids td st :
      step st (TableDetailsChanged uuids td) (tableDetailsEffect uuids td st)
  | step_edit record st :
      record ∈ dataSource st →
      step st (CellClicked record) (edit record st)
  | step_dragEnd active over st l' :
      onDragEnd (dataSource st) active over = Some <$> l' →
      step st (DragEnded active over) (setDataSource l' st)
  | step_formChange newData st :
      step st (FormChanged newData) (formChange newData st)
  | step_add uuid st :
      step st (AddClicked uuid) (addData uuid st)
  | step_delete st :
      step st DeleteClicked (deleteData st)
  | step_move action st :
      step st (MoveClicked action) (moveData action st).

(** The states the component can be in: those reached from the initial
    state by a sequence of reactions. *)
Inductive reachable : State → Prop :=
  | reachable_initial : reachable initialState
  | reachable_step st ev st' : reachable st → step st ev st' → reachable st'.

(** The session is set when [editingKey] is not the initial empty string;
    it references a present id when some record of the list carries it. *)
Definition sessionSet (st : State) : Prop := editingKey st ≠ ""%string.
Definition sessionPresent (st : State) : Prop :=
  editingKey st ∈ keys (dataSource st).

(** ** The rest of the component: field types and cells *)

(** One entry of the reply of [sqlService.getDatabaseFieldTypeList]; only
    [typeName] is read (line 107). *)
Record FieldType : Type := mkFieldType {
  typeName : string;
}.

(** The value the effect at lines 102-109 passes to
    [setDatabaseFieldTypeList] when the request resolves with [res].  The
    list is [[]] before that, and stays so when the request fails. *)
Definition fieldTypeListEffect (res : list FieldType) : list string :=
  typeName <$> res.

(** The data columns of [columns] (lines 117-221), by [dataIndex].  The
    first column, with key [sort], has no [dataIndex] and no [render]. *)
Module DataIndex.
Inductive t : Type := columnName | length | fieldType | nullable | comment.
End DataIndex.

(** [record[dataIndex]], which the table passes to [render] as [text]. *)
Inductive CellValue : Type :=
  | TextValue (s : string)
  | NumberValue (n : option Z)
  | OptionalText (s : option string)
  | FlagValue (b : bool).

Definition cellValue (c : DataIndex.t) (record : Item.t) : CellValue :=
  match c with
  | DataIndex.columnName => TextValue (Item.columnName record)
  | DataIndex.length => NumberValue (Item.length record)
  | DataIndex.fieldType => OptionalText (Item.fieldType record)
  | DataIndex.nullable => FlagValue (Item.nullable record)
  | DataIndex.comment => OptionalText (Item.comment record)
  end.

(** The element a [render] function returns: a [Form.Item] with its name
    and control, or the [div] showing [text] whose [onClick] calls
    [edit(record)].  The options of a [Select] are pairs of label and
    value. *)
Inductive Control : Type :=
  | Input
  | InputNumber
  | Select (options : list (string * string))
  | Checkbox (checked : bool).

Inductive Cell : Type :=
  | FormItem (name : string) (control : Control)
  | EditableCell (text : CellValue) (record : Item.t).

(** The [render] functions of the five data columns (lines 120-137,
    143-160, 165-185, 191-198, 203-220). *)
Definition render (databaseFieldTypeList : list string) (st : State)
    (c : DataIndex.t) (record : Item.t) : Cell :=
  match c with
  | DataIndex.columnName =>
      if isEditing st record then FormItem "columnName" Input
      else EditableCell (cellValue c record) record
  | DataIndex.length =>
      if isEditing st record then FormItem "length" InputNumber
      else EditableCell (cellValue c record) record
  | DataIndex.fieldType =>
      if isEditing st record
      then FormItem "fieldType"
             (Select ((λ i, (i, i)) <$> databaseFieldTypeList))
      else EditableCell (cellValue c record) record
  | DataIndex.nullable =>
      FormItem "nullable" (Checkbox (Item.nullable record))
  | DataIndex.comment =>
      if isEditing st record then FormItem "comment" Input
      else EditableCell (cellValue c record) record
  end.

(** A click on the content of a cell: the [onClick] of the [div]. *)
Definition click (cell : Cell) (st : State) : State :=
  match cell with
  | EditableCell _ record => edit record st
  | FormItem _ _ => st
  end.

(** ** Auxiliary definitions for the further properties *)

(** [{...b1, ...b2}] on form values. *)
Definition overlay (b1 b2 : FormValues.t) : FormValues.t :=
  {| FormValues.columnName :=
       match FormValues.columnName b2 with
       | Some v => Some v | None => FormValues.columnName b1 end;
     FormValues.length :=
       match FormValues.length b2 with
       | Some v => Some v | None => FormValues.length b1 end;
     FormValues.fieldType :=
       match FormValues.fieldType b2 with
       | Some v => Some v | None => FormValues.fieldType b1 end;
     FormValues.nullable :=
       match FormValues.nullable b2 with
       | Some v => Some v | None => FormValues.nullable b1 end;
     FormValues.comment :=
       match FormValues.comment b2 with
       | Some v => Some v | None => FormValues.comment b1 end |}.

(** Form values holding no property. *)
Definition noValues : FormValues.t :=
  {| FormValues.columnName := None; FormValues.length := None;
     FormValues.fieldType := None; FormValues.nullable := None;
     FormValues.comment := None |}.

(** The values [uuidv4()] returns during a reaction are fresh: the one
    [addData] draws is the key of no record, and those drawn for the rows of
    a column list are pairwise different. *)
Definition distinctDraws (uuids : nat → string) (n : nat) : Prop :=
  ∀ i j, i < n → j < n → uuids i = uuids j → i = j.

Definition freshDraws (st : State) (ev : Event) : Prop :=
  match ev with
  | AddClicked uuid => uuid ∉ keys (dataSource st)
  | TableDetailsChanged uuids (Some td) =>
      match columnList td with
      | Some cols => distinctDraws uuids (length cols)
      | None => True
      end
  | _ => True
  end.

(** The states reached when every draw is fresh. *)
Inductive reachableFresh : State → Prop :=
  | reachableFresh_initial : reachableFresh initialState
  | reachableFresh_step st ev st' :
      reachableFresh st → freshDraws st ev → step st ev st' →
      reachableFresh st'.

(** ** The sequence of drawn keys *)

(** [uuidv4()] is called once by [addData] and once per row by the effect
    on [tableDetails].  [drawCount ev] is the number of calls in the
    reaction to [ev]; [drawsFrom source n ev] says that these calls return
    [source n], [source (n + 1)], ...: [source] is the sequence of values
    [uuidv4()] returns over the life of the component and [n] the number of
    calls made before. *)
Definition drawCount (ev : Event) : nat :=
  match ev with
  | AddClicked _ => 1
  | TableDetailsChanged _ (Some td) => length (default [] (columnList td))
  | _ => 0
  end.

Definition drawsFrom (source : nat → string) (n : nat) (ev : Event) : Prop :=
  match ev with
  | AddClicked uuid => uuid = source n
  | TableDetailsChanged uuids (Some td) =>
      ∀ i, i < length (default [] (columnList td)) → uuids i = source (n + i)
  | _ => True
  end.

(** The states reached after [n] calls of [uuidv4()] returning the first
    [n] values of [source]. *)
Inductive reachableDrawing (source : nat → string) : nat → State → Prop :=
  | reachableDrawing_initial : reachableDrawing source 0 initialState
  | reachableDrawing_step n st ev st' :
      reachableDrawing source n st → drawsFrom source n ev → step st ev st' →
      reachableDrawing source (n + drawCount ev) st'.

(** A sequence that never repeats a value, for the evaluations. *)
Definition sampleSource (n : nat) : string :=
  Nat.iter n (String.append "k") ""%string.

(** ** Facts about the array primitives *)

Section JsArrayFacts.
Context {T : Type}.
Implicit Types (p : T → bool) (a : list T).

Lemma findIndexFrom_shift p a i :
  findIndexFrom p a i =
    match list_find (λ x, p x = true) a with
    | Some (n, _) => (i + Z.of_nat n)%Z
    | None => (-1)%Z
    end.
Proof.
  revert i. induction a as [|x a IH]; intros i; simpl; [done|].
  destruct (p x) eqn:Hp.
  - rewrite decide_True by done. f_equal. lia.
  - rewrite decide_False by congruence. rewrite IH.
    destruct (list_find _ a) as [[n y]|]; simpl; lia.
Qed.

(** [findIndex] returns [n] exactly when [n] is the first position whose
    element satisfies [p]. *)
Lemma findIndex_Some p a (n : nat) :
  findIndex p a = Z.of_nat n ↔
  ∃ x, a !! n = Some x ∧ p x = true ∧
       ∀ m y, m < n → a !! m = Some y → p y = false.
Proof.
  unfold findIndex. rewrite findIndexFrom_shift.
  destruct (list_find _ a) as [[k y]|] eqn:Hf.
  - apply list_find_Some in Hf as (Hk & Hy & Hmin). split.
    + intros ?. assert (k = n) as -> by lia. exists y. split_and!; [done..|].
      intros m z Hm Hz. specialize (Hmin m z Hz Hm).
      by destruct (p z).
    + intros (x & Hx & Hpx & Hbefore).
      destruct (lt_eq_lt_dec k n) as [[Hlt| ->]|Hlt]; [|lia|].
      * rewrite (Hbefore k y Hlt Hk) in Hy. done.
      * by destruct (Hmin n x Hx Hlt).
  - apply list_find_None in Hf. split; [lia|].
    intros (x & Hx & Hpx & _).
    rewrite Forall_lookup in Hf. by destruct (Hf n x Hx).
Qed.

Lemma findIndex_None p a :
  findIndex p a = (-1)%Z ↔ ∀ x, x ∈ a → p x = false.
Proof.
  unfold findIndex. rewrite findIndexFrom_shift.
  destruct (list_find _ a) as [[k y]|] eqn:Hf.
  - apply list_find_Some in Hf as (Hk & Hy & _). split; [lia|].
    intros Hall. rewrite (Hall y) in Hy; [done|].
    by eapply list_elem_of_lookup_2.
  - apply list_find_None in Hf. split; [|done].
    intros _ x Hx. apply list_elem_of_lookup in Hx as [n Hn].
    rewrite Forall_lookup in Hf.
    specialize (Hf n x Hn). by destruct (p x).
Qed.

(** [findIndex] is [-1] or an index of the array. *)
Lemma findIndex_cases p a :
  findIndex p a = (-1)%Z ∨
  ∃ n : nat, findIndex p a = Z.of_nat n ∧ n < length a.
Proof.
  unfold findIndex. rewrite findIndexFrom_shift.
  destruct (list_find _ a) as [[k y]|] eqn:Hf; [right|by left].
  apply list_find_Some in Hf as (Hk & _). exists k.
  split; [lia|]. by eapply lookup_lt_Some.
Qed.

(** An element satisfying [p] makes [findIndex] succeed. *)
Lemma findIndex_elem p a x :
  x ∈ a → p x = true → ∃ n : nat, findIndex p a = Z.of_nat n ∧ n < length a.
Proof.
  intros Hx Hp. destruct (findIndex_cases p a) as [Hnone|?]; [|done].
  rewrite findIndex_None in Hnone. rewrite (Hnone x Hx) in Hp. done.
Qed.

(** [splice(start, 1)] removes the element at the actual start index
    when that index is inside the array. *)
Lemma splice_remove_one a start (n : nat) x :
  Z.of_nat n = actualStart (Z.of_nat (length a)) start →
  a !! n = Some x →
  splice a start 1 [] = ([x], delete n a).
Proof.
  intros Hn Hx. pose proof (lookup_lt_Some _ _ _ Hx) as Hlt.
  unfold splice. rewrite <- Hn.
  rewrite Z.max_l by lia. rewrite Z.min_l by lia. rewrite Nat2Z.id.
  replace (Z.to_nat (Z.of_nat n + 1)) with (S n) by lia.
  f_equal; [|by rewrite delete_take_drop].
  change (Z.to_nat 1) with 1.
  by rewrite (drop_S _ _ _ Hx).
Qed.

(** [splice] inserting one element: the position is clamped, nothing is
    removed. *)
Lemma splice_insert_one a start x :
  ∃ k : nat, k ≤ length a ∧
    Z.of_nat k = actualStart (Z.of_nat (length a)) start ∧
    splice a start 0 [x] = ([], take k a ++ x :: drop k a).
Proof.
  set (s := actualStart (Z.of_nat (length a)) start).
  assert (0 ≤ s ≤ Z.of_nat (length a))%Z as Hs.
  { unfold s, actualStart. destruct (Z.ltb_spec start 0); lia. }
  exists (Z.to_nat s). split_and!; [lia|lia|].
  unfold splice. fold s. rewrite Z.max_l by lia. rewrite Z.min_l by lia.
  rewrite Z.add_0_r. by rewrite take_0.
Qed.
End JsArrayFacts.

Section InsertAt.
Context {T : Type}.
Implicit Types (l : list T) (x : T).

Lemma insertAt_Permutation k x l : insertAt k x l ≡ₚ x :: l.
Proof.
  unfold insertAt. rewrite <- Permutation_middle.
  by rewrite take_drop.
Qed.

Lemma insertAt_lookup k x l : k ≤ length l → insertAt k x l !! k = Some x.
Proof.
  intros Hk. unfold insertAt.
  rewrite lookup_app_r by (rewrite length_take; lia).
  rewrite length_take. by replace (k - k `min` length l) with 0 by lia.
Qed.

Lemma insertAt_delete k x l : k ≤ length l → delete k (insertAt k x l) = l.
Proof.
  intros Hk. unfold insertAt. rewrite delete_take_drop.
  rewrite take_app_le by (rewrite length_take; lia).
  rewrite take_take. rewrite Nat.min_id.
  rewrite drop_app_ge by (rewrite length_take; lia).
  rewrite length_take.
  replace (S k - k `min` length l) with 1 by lia. simpl.
  rewrite drop_0. apply take_drop.
Qed.

Lemma insertAt_end x l : insertAt (length l) x l = l ++ [x].
Proof. unfold insertAt. by rewrite firstn_all, drop_all. Qed.
End InsertAt.

Section ArrayMoveFacts.
Context {T : Type}.
Implicit Types (l : list T) (x : T).

(** When the inner [splice] finds an element to remove, [arrayMove]
    removes it and puts it back at the clamped target index. *)
Lemma arrayMove_defined l from to (n : nat) x :
  Z.of_nat n = actualStart (Z.of_nat (length l)) from →
  l !! n = Some x →
  ∃ k : nat,
    k ≤ length (delete n l) ∧
    Z.of_nat k =
      actualStart (Z.of_nat (length (delete n l)))
        (if (to <? 0)%Z then Z.of_nat (length l) + to else to)%Z ∧
    arrayMove l from to = Some <$> insertAt k x (delete n l).
Proof.
  intros Hn Hx. unfold arrayMove. rewrite length_fmap.
  set (start := if (to <? 0)%Z then (Z.of_nat (length l) + to)%Z else to).
  rewrite (splice_remove_one (Some <$> l) from n (Some x));
    [|by rewrite length_fmap|by rewrite list_lookup_fmap, Hx].
  destruct (splice_insert_one (delete n (Some <$> l)) start (Some x))
    as (k & Hk & Hpos & Heq).
  change (default None (head [Some x])) with (Some x).
  rewrite Heq. simpl.
  rewrite <- list_fmap_delete in Hk, Hpos |- *.
  rewrite !length_fmap in Hk, Hpos.
  exists k. split_and!; [done..|].
  unfold insertAt. rewrite fmap_app, fmap_cons.
  by rewrite fmap_take, fmap_drop.
Qed.

(** Both indices inside the array. *)
Lemma arrayMove_in_range l (i j : nat) x :
  l !! i = Some x → j < length l →
  arrayMove l (Z.of_nat i) (Z.of_nat j) = Some <$> insertAt j x (delete i l).
Proof.
  intros Hx Hj. pose proof (lookup_lt_Some _ _ _ Hx) as Hi.
  destruct (arrayMove_defined l (Z.of_nat i) (Z.of_nat j) i x)
    as (k & Hk & Hpos & ->); [|done|].
  - unfold actualStart. destruct (Z.ltb_spec (Z.of_nat i) 0); lia.
  - rewrite length_delete in Hpos by eauto.
    unfold actualStart in Hpos.
    destruct (Z.ltb_spec (Z.of_nat j) 0); [lia|].
    rewrite (proj2 (Z.ltb_ge _ _)) in Hpos by lia.
    by assert (k = j) as -> by lia.
Qed.

(** Source inside the array, target [-1]: the element goes to the end. *)
Lemma arrayMove_to_minus_one l (i : nat) x :
  l !! i = Some x →
  arrayMove l (Z.of_nat i) (-1) = Some <$> (delete i l ++ [x]).
Proof.
  intros Hx. pose proof (lookup_lt_Some _ _ _ Hx) as Hi.
  destruct (arrayMove_defined l (Z.of_nat i) (-1) i x)
    as (k & Hk & Hpos & ->); [|done|].
  - unfold actualStart. destruct (Z.ltb_spec (Z.of_nat i) 0); lia.
  - rewrite <- insertAt_end. f_equal. f_equal.
    rewrite length_delete in Hpos |- * by eauto.
    unfold actualStart in Hpos. simpl in Hpos.
    destruct (Z.ltb_spec (Z.of_nat (length l) + -1) 0); lia.
Qed.

(** Source [-1] on a non-empty array: the last element is the one moved. *)
Lemma arrayMove_from_minus_one l to (n : nat) x :
  length l = S n → l !! n = Some x →
  ∃ k : nat, k ≤ n ∧ arrayMove l (-1) to = Some <$> insertAt k x (delete n l).
Proof.
  intros Hlen Hx.
  destruct (arrayMove_defined l (-1) to n x) as (k & Hk & _ & ->); [|done|].
  - unfold actualStart. simpl. lia.
  - rewrite length_delete in Hk by eauto. exists k. split; [lia|done].
Qed.

(** Source [-1] on the empty array: [undefined] is inserted. *)
Lemma arrayMove_empty (to : Z) : arrayMove (@nil T) (-1) to = [None].
Proof. unfold arrayMove, splice, actualStart. simpl. by destruct (to <? 0)%Z, to. Qed.
End ArrayMoveFacts.

(** ** Keys and positions *)

Lemma records_defined {T : Type} (l : list T) : records (Some <$> l) = l.
Proof. unfold records. induction l as [|x l IH]; simpl; by f_equal. Qed.

Lemma hasKey_true k r : hasKey k r = true ↔ Item.key r = k.
Proof. apply String.eqb_eq. Qed.

Lemma hasKey_false k r : hasKey k r = false ↔ Item.key r ≠ k.
Proof. apply String.eqb_neq. Qed.

Lemma elem_of_keys k l : k ∈ keys l ↔ ∃ r, r ∈ l ∧ Item.key r = k.
Proof.
  unfold keys. rewrite list_elem_of_fmap. split; intros (r & ? & ?); eauto.
Qed.

(** The position [findIndex] gives for a key some record carries. *)
Lemma findIndex_key_present l k :
  k ∈ keys l →
  ∃ (n : nat) (x : Item.t),
    findIndex (hasKey k) l = Z.of_nat n ∧ l !! n = Some x ∧ Item.key x = k.
Proof.
  rewrite elem_of_keys. intros (r & Hr & Hk).
  destruct (findIndex_elem (hasKey k) l r Hr) as (n & Hn & _).
  { by apply hasKey_true. }
  pose proof Hn as Hn'. apply findIndex_Some in Hn' as (x & Hx & Hpx & _).
  exists n, x. split_and!; [done..|]. by apply hasKey_true.
Qed.

Lemma findIndex_key_absent l k : k ∉ keys l → findIndex (hasKey k) l = (-1)%Z.
Proof.
  intros Hk. apply findIndex_None. intros r Hr. apply hasKey_false.
  intros Heq. apply Hk. apply elem_of_keys. eauto.
Qed.

(** [undefined] is the key of no record. *)
Lemma findIndex_undefined (l : list Item.t) :
  findIndex (λ i, sameId (Item.key i) None) l = (-1)%Z.
Proof. by apply findIndex_None. Qed.

(** ** Drag end *)

Lemma sameId_true a b : sameId a (Some b) = true ↔ a = b.
Proof. apply String.eqb_eq. Qed.

(** The guard of [onDragEnd]: the same id on both sides changes nothing. *)
Lemma onDragEnd_same l a : onDragEnd l a (Some a) = Some <$> l.
Proof.
  unfold onDragEnd. by rewrite (proj2 (sameId_true a a) eq_refl).
Qed.

Lemma onDragEnd_unfold l a over :
  sameId a over = false →
  onDragEnd l a over =
    arrayMove l (findIndex (hasKey a) l)
      (findIndex (λ i, sameId (Item.key i) over) l).
Proof. intros Hne. unfold onDragEnd. by rewrite Hne. Qed.

Lemma sameId_false a b : a ≠ b → sameId a (Some b) = false.
Proof. intros Hne. by apply String.eqb_neq. Qed.

(** A drag that ends over no row, or over an id no record carries, sends
    the dragged record to the end of the list. *)
Lemma onDragEnd_target_absent l a over (n : nat) x :
  (∀ b, over = Some b → b ∉ keys l) →
  findIndex (hasKey a) l = Z.of_nat n → l !! n = Some x →
  onDragEnd l a over = Some <$> (delete n l ++ [x]).
Proof.
  intros Hover Hn Hx.
  assert (a ∈ keys l) as Ha.
  { apply findIndex_Some in Hn as (y & Hy & Hp & _).
    apply elem_of_keys. exists y. split; [|by apply hasKey_true].
    by eapply list_elem_of_lookup_2. }
  assert (sameId a over = false ∧
          findIndex (λ i, sameId (Item.key i) over) l = (-1)%Z) as [Hne Hto].
  { destruct over as [b|]; [|split; [done|apply findIndex_undefined]].
    specialize (Hover b eq_refl). split.
    - apply sameId_false. by intros ->.
    - by apply (findIndex_key_absent l b). }
  rewrite onDragEnd_unfold by done.
  rewrite Hn, Hto. by apply arrayMove_to_minus_one.
Qed.

(** On a non-empty list the result of [onDragEnd] holds no [undefined] and
    is a rearrangement of the list, whatever the two ids. *)
Lemma onDragEnd_Permutation l a over :
  l ≠ [] → ∃ l', onDragEnd l a over = Some <$> l' ∧ l' ≡ₚ l.
Proof.
  intros Hl. destruct (sameId a over) eqn:Hguard.
  { exists l. split; [|done]. unfold onDragEnd. by rewrite Hguard. }
  rewrite onDragEnd_unfold by done.
  generalize (findIndex (λ i, sameId (Item.key i) over) l). intros to.
  destruct (findIndex_cases (hasKey a) l) as [->|(n & -> & Hn)].
  - destruct (exists_last Hl) as (l0 & x & ->).
    destruct (arrayMove_from_minus_one (l0 ++ [x]) to (length l0) x)
      as (k & _ & ->).
    + rewrite length_app. simpl. lia.
    + by rewrite list_lookup_middle.
    + eexists. split; [done|]. rewrite insertAt_Permutation.
      symmetry. apply delete_Permutation. by rewrite list_lookup_middle.
  - destruct (lookup_lt_is_Some_2 l n Hn) as [x Hx].
    destruct (arrayMove_defined l (Z.of_nat n) to n x) as (k & _ & _ & ->);
      [|done|].
    + unfold actualStart. destruct (Z.ltb_spec (Z.of_nat n) 0); lia.
    + eexists. split; [done|]. rewrite insertAt_Permutation.
      symmetry. by apply delete_Permutation.
Qed.

(** On the empty list a drag end with two different ids leaves an array
    whose only slot is [undefined]. *)
Lemma onDragEnd_empty a over :
  sameId a over = false → onDragEnd [] a over = [None].
Proof.
  intros Hne. rewrite onDragEnd_unfold by done.
  change (findIndex (hasKey a) []) with (-1)%Z. apply arrayMove_empty.
Qed.

(** The records left by [onDragEnd] are those of the list, rearranged. *)
Lemma onDragEnd_records l a over : records (onDragEnd l a over) ≡ₚ l.
Proof.
  destruct l as [|r l].
  - destruct (sameId a over) eqn:Hguard.
    + unfold onDragEnd. by rewrite Hguard.
    + by rewrite onDragEnd_empty.
  - destruct (onDragEnd_Permutation (r :: l) a over) as (l' & -> & Hperm);
      [done|].
    by rewrite records_defined.
Qed.

(** C1.  For distinct ids [a] and [b] both carried by records of the list,
    the drag-end move returns a rearrangement of the same records in which
    the record found for [a] sits at the index where [b] was found, and from
    which removing that record leaves the other records in their original
    order. *)
Theorem onDragEnd_relocates (l : list Item.t) (a b : string) :
  a ≠ b → a ∈ keys l → b ∈ keys l →
  ∃ (i j : nat) (x : Item.t) (l' : list Item.t),
    findIndex (hasKey a) l = Z.of_nat i ∧
    findIndex (hasKey b) l = Z.of_nat j ∧
    l !! i = Some x ∧ Item.key x = a ∧
    onDragEnd l a (Some b) = Some <$> l' ∧
    l' ≡ₚ l ∧
    l' !! j = Some x ∧
    delete j l' = delete i l.
Proof.
  intros Hne Ha Hb.
  destruct (findIndex_key_present l a Ha) as (i & x & Hi & Hx & Hkx).
  destruct (findIndex_key_present l b Hb) as (j & y & Hj & Hy & Hky).
  pose proof (lookup_lt_Some _ _ _ Hy) as Hjlt.
  assert (j ≤ length (delete i l)) as Hjle.
  { rewrite length_delete by eauto. lia. }
  exists i, j, x, (insertAt j x (delete i l)).
  split_and!; [done..| | | |].
  - rewrite onDragEnd_unfold by by apply sameId_false.
    change (λ i0, sameId (Item.key i0) (Some b)) with (hasKey b).
    rewrite Hi, Hj. by apply arrayMove_in_range.
  - rewrite insertAt_Permutation. symmetry. by apply delete_Permutation.
  - by apply insertAt_lookup.
  - by apply insertAt_delete.
Qed.

(** C3.  [onDragEnd] on the list [A, B, C] with an id no record carries.
    A drag of [B] that ends over no row ([over] is [null]), or over an id
    that is not in the list, moves [B] to the end; a drag whose active id
    is not in the list moves the last record [C] to the target's index.
    Neither leaves the list unchanged. *)
Theorem onDragEnd_absent_id_reorders :
  onDragEnd [rowA; rowB; rowC] "B" None = [Some rowA; Some rowC; Some rowB] ∧
  onDragEnd [rowA; rowB; rowC] "B" (Some "Z"%string)
    = [Some rowA; Some rowC; Some rowB] ∧
  onDragEnd [rowA; rowB; rowC] "Z" (Some "A"%string)
    = [Some rowC; Some rowA; Some rowB].
Proof. split_and!; reflexivity. Qed.

(** The example of the specification: list [A, B, C], [C] dragged onto
    [A]. *)
Lemma onDragEnd_relocates_witness :
  ∃ (i j : nat) (x : Item.t) (l' : list Item.t),
    findIndex (hasKey "C") [rowA; rowB; rowC] = Z.of_nat i ∧
    findIndex (hasKey "A") [rowA; rowB; rowC] = Z.of_nat j ∧
    [rowA; rowB; rowC] !! i = Some x ∧ Item.key x = "C"%string ∧
    onDragEnd [rowA; rowB; rowC] "C" (Some "A"%string) = Some <$> l' ∧
    l' ≡ₚ [rowA; rowB; rowC] ∧
    l' !! j = Some x ∧
    delete j l' = delete i [rowA; rowB; rowC].
Proof.
  apply (onDragEnd_relocates [rowA; rowB; rowC] "C" "A"); compute_done.
Defined.

Example onDragEnd_C_onto_A :
  onDragEnd [rowA; rowB; rowC] "C" (Some "A"%string)
    = [Some rowC; Some rowA; Some rowB].
Proof. reflexivity. Qed.

(** ** Up and down *)

Lemma swap_cons c l i j : swap (c :: l) (S i) (S j) = c :: swap l i j.
Proof. unfold swap. simpl. by destruct (l !! i), (l !! j). Qed.

(** Exchanging two neighbours, written from either of the two. *)
Lemma swap_adjacent l m a b :
  l !! m = Some a → l !! S m = Some b →
  swap l m (S m) = take m l ++ b :: a :: drop (S (S m)) l ∧
  swap l (S m) m = take m l ++ b :: a :: drop (S (S m)) l.
Proof.
  revert l. induction m as [|m IH]; intros l Ha Hb.
  - destruct l as [|a' [|b' l]]; simplify_eq/=.
    unfold swap. simpl. by rewrite drop_0.
  - destruct l as [|c l]; [done|]. simpl in Ha, Hb.
    destruct (IH l Ha Hb) as [IH1 IH2].
    rewrite !swap_cons, IH1, IH2. done.
Qed.

Lemma adjacent_Permutation (l : list Item.t) m a b :
  l !! m = Some a → l !! S m = Some b →
  take m l ++ b :: a :: drop (S (S m)) l ≡ₚ l.
Proof.
  intros Ha Hb. rewrite <- (take_drop_middle l m a Ha) at 3.
  rewrite (drop_S l b (S m) Hb). apply Permutation_app_head, perm_swap.
Qed.

(** The four outcomes of [moveData], by the position [findIndex] gives for
    the record in edit mode.  On every path that calls [swap] the two
    positions are inside the list. *)
Lemma moveData_not_found action st :
  findIndex (isEditing st) (dataSource st) = (-1)%Z → moveData action st = st.
Proof. intros Hn. unfold moveData. by rewrite Hn. Qed.

Lemma moveData_up_found st (n : nat) r :
  findIndex (isEditing st) (dataSource st) = Z.of_nat n →
  dataSource st !! n = Some r →
  match n with
  | 0 => moveData up st = st
  | S m =>
      ∃ prev, dataSource st !! m = Some prev ∧
        moveData up st =
          setDataSource
            (take m (dataSource st) ++ r :: prev :: drop (S n) (dataSource st)) st
  end.
Proof.
  intros Hn Hr. unfold moveData. rewrite Hn.
  destruct n as [|m]; [done|].
  rewrite (proj2 (Z.eqb_neq _ _)) by lia.
  rewrite (proj2 (Z.eqb_neq _ _)) by lia.
  destruct (lookup_lt_is_Some_2 (dataSource st) m) as [prev Hprev].
  { apply lookup_lt_Some in Hr. lia. }
  exists prev. split; [done|].
  rewrite Nat2Z.id. replace (Z.to_nat (Z.of_nat (S m) - 1)) with m by lia.
  by rewrite (proj2 (swap_adjacent _ m prev r Hprev Hr)).
Qed.

Lemma moveData_down_found st (n : nat) r :
  findIndex (isEditing st) (dataSource st) = Z.of_nat n →
  dataSource st !! n = Some r →
  (S n = length (dataSource st) → moveData down st = st) ∧
  (S n ≠ length (dataSource st) →
     ∃ next, dataSource st !! S n = Some next ∧
       moveData down st =
         setDataSource
           (take n (dataSource st) ++ next :: r :: drop (S (S n)) (dataSource st))
           st).
Proof.
  intros Hn Hr. pose proof (lookup_lt_Some _ _ _ Hr) as Hlt.
  unfold moveData. rewrite Hn.
  rewrite (proj2 (Z.eqb_neq (Z.of_nat n) (-1))) by lia. split.
  - intros Hlast. by rewrite (proj2 (Z.eqb_eq _ _)) by lia.
  - intros Hnot. rewrite (proj2 (Z.eqb_neq _ _)) by lia.
    destruct (lookup_lt_is_Some_2 (dataSource st) (S n)) as [next Hnext]; [lia|].
    exists next. split; [done|].
    rewrite Nat2Z.id. replace (Z.to_nat (Z.of_nat n + 1)) with (S n) by lia.
    by rewrite (proj1 (swap_adjacent _ n r next Hr Hnext)).
Qed.

(** The record in edit mode, when [findIndex] finds one. *)
Lemma findIndex_isEditing st (n : nat) :
  findIndex (isEditing st) (dataSource st) = Z.of_nat n →
  ∃ r, dataSource st !! n = Some r ∧ Item.key r = editingKey st.
Proof.
  intros Hn. apply findIndex_Some in Hn as (r & Hr & Hp & _).
  exists r. split; [done|]. by apply String.eqb_eq.
Qed.

(** [moveData] rearranges the list and leaves the session alone. *)
Lemma moveData_Permutation action st :
  editingKey (moveData action st) = editingKey st ∧
  dataSource (moveData action st) ≡ₚ dataSource st.
Proof.
  destruct (findIndex_cases (isEditing st) (dataSource st)) as [Hn|(n & Hn & _)].
  { by rewrite moveData_not_found. }
  destruct (findIndex_isEditing st n Hn) as (r & Hr & _).
  destruct action.
  - pose proof (moveData_up_found st n r Hn Hr) as Hup.
    destruct n as [|m]; [by rewrite Hup|].
    destruct Hup as (prev & Hprev & ->). split; [done|].
    by apply adjacent_Permutation.
  - destruct (moveData_down_found st n r Hn Hr) as [Hlast Hswap].
    destruct (decide (S n = length (dataSource st))) as [Heq|Hne].
    + by rewrite Hlast.
    + destruct (Hswap Hne) as (next & Hnext & ->). split; [done|].
      by apply adjacent_Permutation.
Qed.

(** C6.  Let [n] be the position of the record in edit mode.  [moveData up]
    with [n = 0] and [moveData down] with [n] the last position return the
    state unchanged.  Otherwise the new list is the old one with the record
    and its neighbour (the previous one for [up], the next one for [down])
    exchanged: the prefix before the pair and the suffix after it are the
    same, and so is the session. *)
Theorem moveData_swaps_neighbour (action : Action) (st : State) (n : nat) :
  findIndex (isEditing st) (dataSource st) = Z.of_nat n →
  ∃ r, dataSource st !! n = Some r ∧ Item.key r = editingKey st ∧
    match action with
    | up =>
        match n with
        | 0 => moveData up st = st
        | S m =>
            ∃ prev, dataSource st !! m = Some prev ∧
              moveData up st =
                setDataSource
                  (take m (dataSource st) ++ r :: prev ::
                     drop (S n) (dataSource st)) st
        end
    | down =>
        (S n = length (dataSource st) → moveData down st = st) ∧
        (S n ≠ length (dataSource st) →
           ∃ next, dataSource st !! S n = Some next ∧
             moveData down st =
               setDataSource
                 (take n (dataSource st) ++ next :: r ::
                    drop (S (S n)) (dataSource st)) st)
    end.
Proof.
  intros Hn. destruct (findIndex_isEditing st n Hn) as (r & Hr & Hk).
  exists r. split_and!; [done..|]. destruct action.
  - by apply moveData_up_found.
  - by apply moveData_down_found.
Qed.

Lemma moveData_swaps_neighbour_witness :
  ∃ r, [rowA; rowB; rowC] !! 1 = Some r ∧ Item.key r = "B"%string ∧
    ∃ prev, [rowA; rowB; rowC] !! 0 = Some prev ∧
      moveData up (mkState [rowA; rowB; rowC] "B") =
        mkState [r; prev; rowC] "B".
Proof.
  apply (moveData_swaps_neighbour up (mkState [rowA; rowB; rowC] "B") 1).
  reflexivity.
Defined.

(** ** Delete *)

Lemma filter_all {A : Type} (P : A → Prop) `{∀ x, Decision (P x)} (l : list A) :
  (∀ x, x ∈ l → P x) → filter P l = l.
Proof.
  induction l as [|x l IH]; intros Hall; [done|].
  rewrite filter_cons_True by (apply Hall; left).
  f_equal. apply IH. intros y Hy. apply Hall. by right.
Qed.

(** [deleteData] never touches the session, and afterwards no record
    carries the session key. *)
Lemma deleteData_session st :
  editingKey (deleteData st) = editingKey st ∧ ¬ sessionPresent (deleteData st).
Proof.
  split; [done|]. unfold sessionPresent. simpl.
  rewrite elem_of_keys. intros (r & Hr & Hk).
  apply list_elem_of_filter in Hr as [Hne _]. done.
Qed.

(** Without a record carrying the session key [deleteData] changes nothing. *)
Lemma deleteData_absent st : ¬ sessionPresent st → deleteData st = st.
Proof.
  intros Habsent. destruct st as [l k]. unfold deleteData, setDataSource. simpl.
  f_equal. apply filter_all. intros r Hr Hk. apply Habsent.
  apply elem_of_keys. eauto.
Qed.

(** With distinct keys, [deleteData] takes out the one record carrying the
    session key. *)
Lemma deleteData_present st :
  NoDup (keys (dataSource st)) → sessionPresent st →
  ∃ l1 r l2,
    dataSource st = l1 ++ r :: l2 ∧ Item.key r = editingKey st ∧
    dataSource (deleteData st) = l1 ++ l2.
Proof.
  intros Hnd Hin. apply elem_of_keys in Hin as (r & Hr & Hk).
  apply list_elem_of_split in Hr as (l1 & l2 & Hl).
  exists l1, r, l2. split_and!; [done..|].
  unfold deleteData. simpl. rewrite Hl in Hnd |- *.
  unfold keys in Hnd. rewrite fmap_app, fmap_cons in Hnd.
  apply list.NoDup_app in Hnd as (_ & Hl1 & Hnd).
  apply list.NoDup_cons in Hnd as (Hl2 & _).
  rewrite list.filter_app, filter_cons_False by (intros Hne; by apply Hne).
  f_equal; apply filter_all; intros x Hx Hkx.
  - apply (Hl1 (Item.key x)).
    + apply list_elem_of_fmap. eauto.
    + rewrite Hkx, <- Hk. left.
  - apply Hl2. rewrite Hk, <- Hkx. apply list_elem_of_fmap. eauto.
Qed.

(** C5.  In a list whose keys are distinct, when a record carries the
    session key [deleteData] removes that record and no other: the list is
    one shorter and the records before and after it are the same, in the
    same order.  When no record carries the session key (no row is in edit
    mode, as with the initial empty key) [deleteData] returns the state
    unchanged. *)
Theorem deleteData_removes_session_record (st : State) :
  (NoDup (keys (dataSource st)) → sessionPresent st →
     ∃ l1 r l2,
       dataSource st = l1 ++ r :: l2 ∧ Item.key r = editingKey st ∧
       dataSource (deleteData st) = l1 ++ l2 ∧
       length (dataSource st) = S (length (dataSource (deleteData st)))) ∧
  (¬ sessionPresent st → deleteData st = st).
Proof.
  split; [|apply deleteData_absent].
  intros Hnd Hin.
  destruct (deleteData_present st Hnd Hin) as (l1 & r & l2 & Hl & Hk & Hl').
  exists l1, r, l2. split_and!; [done..|].
  rewrite Hl, Hl', !length_app. simpl. lia.
Qed.

Lemma deleteData_removes_session_record_witness :
  ∃ l1 r l2,
    [rowA; rowB; rowC] = l1 ++ r :: l2 ∧ Item.key r = "B"%string ∧
    dataSource (deleteData (mkState [rowA; rowB; rowC] "B")) = l1 ++ l2 ∧
    3 = S (length (dataSource (deleteData (mkState [rowA; rowB; rowC] "B")))).
Proof.
  apply (proj1 (deleteData_removes_session_record
                  (mkState [rowA; rowB; rowC] "B"))).
  - compute_done.
  - unfold sessionPresent. compute_done.
Defined.

(** ** Field changes *)

Lemma merge_fields r newData :
  Item.key (merge r newData) = Item.key r ∧
  mergedField (Item.columnName r) (FormValues.columnName newData)
    (Item.columnName (merge r newData)) ∧
  mergedField (Item.length r) (FormValues.length newData)
    (Item.length (merge r newData)) ∧
  mergedField (Item.fieldType r) (FormValues.fieldType newData)
    (Item.fieldType (merge r newData)) ∧
  mergedField (Item.nullable r) (FormValues.nullable newData)
    (Item.nullable (merge r newData)) ∧
  mergedField (Item.comment r) (FormValues.comment newData)
    (Item.comment (merge r newData)).
Proof.
  destruct newData as [[?|] [?|] [?|] [?|] [?|]]; by split_and!.
Qed.

Lemma formChange_keys newData st :
  keys (dataSource (formChange newData st)) = keys (dataSource st).
Proof.
  unfold formChange, keys. simpl. rewrite <- list_fmap_compose.
  apply list_fmap_ext. intros _ r _. simpl.
  by destruct (Item.key r =? editingKey st)%string.
Qed.

Lemma formChange_lookup newData st n r :
  dataSource st !! n = Some r →
  dataSource (formChange newData st) !! n =
    Some (if decide (Item.key r = editingKey st) then merge r newData else r).
Proof.
  intros Hr. unfold formChange. simpl. rewrite list_lookup_fmap, Hr. simpl.
  f_equal. destruct (String.eqb_spec (Item.key r) (editingKey st)).
  - by rewrite decide_True.
  - by rewrite decide_False.
Qed.

(** C7.  [formChange] with form values [newData] keeps the session, the
    length of the list and the sequence of keys.  At every position the
    record is unchanged unless its key is the session key; a record with
    the session key becomes the merge of [newData] over it, in which each
    field is the form's value when the form values hold that field and the
    record's own value otherwise, and the key is the record's key. *)
Theorem formChange_merges_session_record (newData : FormValues.t) (st : State) :
  editingKey (formChange newData st) = editingKey st ∧
  length (dataSource (formChange newData st)) = length (dataSource st) ∧
  keys (dataSource (formChange newData st)) = keys (dataSource st) ∧
  ∀ n r, dataSource st !! n = Some r →
    (Item.key r ≠ editingKey st →
       dataSource (formChange newData st) !! n = Some r) ∧
    (Item.key r = editingKey st →
       ∃ r', dataSource (formChange newData st) !! n = Some r' ∧
         Item.key r' = Item.key r ∧
         mergedField (Item.columnName r) (FormValues.columnName newData)
           (Item.columnName r') ∧
         mergedField (Item.length r) (FormValues.length newData)
           (Item.length r') ∧
         mergedField (Item.fieldType r) (FormValues.fieldType newData)
           (Item.fieldType r') ∧
         mergedField (Item.nullable r) (FormValues.nullable newData)
           (Item.nullable r') ∧
         mergedField (Item.comment r) (FormValues.comment newData)
           (Item.comment r')).
Proof.
  split_and!.
  - done.
  - unfold formChange. simpl. by rewrite length_fmap.
  - apply formChange_keys.
  - intros n r Hr. rewrite (formChange_lookup newData st n r Hr). split.
    + intros Hne. by rewrite decide_False.
    + intros Heq. rewrite decide_True by done.
      exists (merge r newData). split; [done|]. apply merge_fields.
Qed.

(** The example of the specification: list [A, B, C], session on [B], form
    values holding only [columnName = "x"]. *)
Lemma formChange_merges_session_record_witness :
  dataSource
    (formChange (FormValues.mk (Some "x"%string) None None None None)
       (edit rowB (mkState [rowA; rowB; rowC] ""))) !! 0 = Some rowA ∧
  ∃ r', dataSource
          (formChange (FormValues.mk (Some "x"%string) None None None None)
             (edit rowB (mkState [rowA; rowB; rowC] ""))) !! 1 = Some r' ∧
        Item.key r' = "B"%string ∧ Item.columnName r' = "x"%string ∧
        Item.comment r' = None.
Proof.
  pose proof (formChange_merges_session_record
                (FormValues.mk (Some "x"%string) None None None None)
                (edit rowB (mkState [rowA; rowB; rowC] ""))) as (_ & _ & _ & H).
  split.
  - apply (proj1 (H 0 rowA eq_refl)). compute_done.
  - destruct (proj2 (H 1 rowB eq_refl) eq_refl)
      as (r' & Hr' & Hk & Hname & _ & _ & _ & Hcomment).
    exists r'. by split_and!.
Defined.

(** ** Loading the table metadata *)

Lemma tableDetailsEffect_lookup uuids td cols st n :
  columnList td = Some cols →
  dataSource (tableDetailsEffect uuids (Some td) st) !! n =
    toItem (uuids n) <$> cols !! n.
Proof.
  intros Hcols. unfold tableDetailsEffect. rewrite Hcols. simpl.
  exact (list_lookup_imap (λ n t, toItem (uuids n) t) cols n).
Qed.

(** C8 as stated does not hold: after a record was added, an absent
    [tableDetails] leaves that record in the list. *)
Lemma tableDetailsEffect_absent_keeps_list :
  ¬ (∀ (uuids : nat → string) (st : State),
       reachable st → dataSource (tableDetailsEffect uuids None st) = []).
Proof.
  intros Hclaim.
  specialize (Hclaim (λ _, ""%string) (addData "A" initialState)).
  discriminate Hclaim.
  eapply reachable_step; [apply reachable_initial|apply step_add].
Qed.

(** C8, amended.  When [tableDetails] is present and has no [columnList],
    the column list becomes empty.  When [tableDetails] itself is absent the
    effect leaves the state as it is; the list is then empty only if it was
    empty before, as in the initial state. *)
Theorem tableDetailsEffect_missing (uuids : nat → string) (st : State) :
  (∀ td, columnList td = None →
     dataSource (tableDetailsEffect uuids (Some td) st) = []) ∧
  tableDetailsEffect uuids None st = st ∧
  dataSource (tableDetailsEffect uuids None initialState) = [].
Proof.
  split_and!; [|done..].
  intros td Hcols. unfold tableDetailsEffect. by rewrite Hcols.
Qed.

Lemma tableDetailsEffect_missing_witness :
  dataSource
    (tableDetailsEffect (λ _, "k"%string) (Some (mkTableDetails None))
       (mkState [rowA; rowB] "A")) = [].
Proof.
  apply (proj1 (tableDetailsEffect_missing (λ _, "k"%string)
                  (mkState [rowA; rowB] "A")) (mkTableDetails None)).
  reflexivity.
Defined.

(** C10.  Row [n] of a loaded column list becomes record [n] of the list;
    the record is nullable exactly when the row's [nullable] is [0] (so it
    is not for [1]), its [length] is the row's [dataType] and its
    [fieldType] is the row's [columnType]. *)
Theorem tableDetailsEffect_normalizes (uuids : nat → string)
    (td : TableDetails) (cols : list Column.t) (st : State)
    (n : nat) (t : Column.t) :
  columnList td = Some cols → cols !! n = Some t →
  ∃ r, dataSource (tableDetailsEffect uuids (Some td) st) !! n = Some r ∧
    (Item.nullable r = true ↔ Column.nullable t = 0%Z) ∧
    (Column.nullable t = 1%Z → Item.nullable r = false) ∧
    Item.length r = Column.dataType t ∧
    Item.fieldType r = Column.columnType t.
Proof.
  intros Hcols Ht. exists (toItem (uuids n) t).
  rewrite (tableDetailsEffect_lookup uuids td cols st n Hcols), Ht.
  split_and!; [done| | |done..].
  - simpl. apply Z.eqb_eq.
  - intros Hone. simpl. by rewrite Hone.
Qed.

Lemma tableDetailsEffect_normalizes_witness :
  ∃ r,
    dataSource
      (tableDetailsEffect (λ _, "k"%string)
         (Some (mkTableDetails
                  (Some [Column.mk "id" (Some 11%Z) (Some "INT"%string) 0 None;
                         Column.mk "name" None (Some "TEXT"%string) 1 None])))
         initialState) !! 1 = Some r ∧
    (Item.nullable r = true ↔ 1%Z = 0%Z) ∧
    (1%Z = 1%Z → Item.nullable r = false) ∧
    Item.length r = None ∧
    Item.fieldType r = Some "TEXT"%string.
Proof.
  apply (tableDetailsEffect_normalizes (λ _, "k"%string)
           (mkTableDetails
              (Some [Column.mk "id" (Some 11%Z) (Some "INT"%string) 0 None;
                     Column.mk "name" None (Some "TEXT"%string) 1 None]))
           [Column.mk "id" (Some 11%Z) (Some "INT"%string) 0 None;
            Column.mk "name" None (Some "TEXT"%string) 1 None]
           initialState 1
           (Column.mk "name" None (Some "TEXT"%string) 1 None));
    reflexivity.
Defined.

(** ** Distinct keys *)

Lemma keys_Permutation l l' : l ≡ₚ l' → keys l ≡ₚ keys l'.
Proof. intros Hperm. unfold keys. by rewrite Hperm. Qed.

Lemma addData_NoDup uuid st :
  NoDup (keys (dataSource st)) → uuid ∉ keys (dataSource st) →
  NoDup (keys (dataSource (addData uuid st))).
Proof.
  intros Hnd Hfresh. unfold addData, keys. simpl. rewrite fmap_app. simpl.
  apply list.NoDup_app. split_and!; [done| |apply NoDup_singleton].
  intros k Hk Hin. apply list_elem_of_singleton in Hin as ->. by apply Hfresh.
Qed.

Lemma deleteData_NoDup st :
  NoDup (keys (dataSource st)) → NoDup (keys (dataSource (deleteData st))).
Proof.
  intros Hnd. eapply sublist_NoDup; [exact Hnd|].
  unfold deleteData, keys. simpl. apply fmap_sublist, sublist_filter.
Qed.

Lemma moveData_NoDup action st :
  NoDup (keys (dataSource st)) →
  NoDup (keys (dataSource (moveData action st))).
Proof.
  intros Hnd. destruct (moveData_Permutation action st) as [_ Hperm].
  by rewrite (keys_Permutation _ _ Hperm).
Qed.

Lemma onDragEnd_NoDup l active over :
  NoDup (keys l) → NoDup (keys (records (onDragEnd l active over))).
Proof.
  intros Hnd.
  by rewrite (keys_Permutation _ _ (onDragEnd_records l active over)).
Qed.

(** C9.  From a state whose record keys are distinct, the keys are still
    distinct after [addData] with a drawn value no record carries, after
    [deleteData], after [moveData] in either direction, and among the
    records [onDragEnd] returns for any two ids. *)
Theorem distinct_keys_preserved (st : State) :
  NoDup (keys (dataSource st)) →
  (∀ uuid, uuid ∉ keys (dataSource st) →
     NoDup (keys (dataSource (addData uuid st)))) ∧
  NoDup (keys (dataSource (deleteData st))) ∧
  (∀ action, NoDup (keys (dataSource (moveData action st)))) ∧
  (∀ active over,
     NoDup (keys (records (onDragEnd (dataSource st) active over)))).
Proof.
  intros Hnd. split_and!.
  - intros uuid Hfresh. by apply addData_NoDup.
  - by apply deleteData_NoDup.
  - intros action. by apply moveData_NoDup.
  - intros active over. by apply onDragEnd_NoDup.
Qed.

Lemma distinct_keys_preserved_witness :
  NoDup (keys (dataSource (addData "D" (mkState [rowA; rowB; rowC] "B")))) ∧
  NoDup (keys (dataSource (deleteData (mkState [rowA; rowB; rowC] "B")))) ∧
  NoDup (keys (dataSource (moveData up (mkState [rowA; rowB; rowC] "B")))) ∧
  NoDup (keys (records (onDragEnd [rowA; rowB; rowC] "C" (Some "A"%string)))).
Proof.
  destruct (distinct_keys_preserved (mkState [rowA; rowB; rowC] "B"))
    as (Hadd & Hdelete & Hmove & Hdrag).
  - compute_done.
  - split_and!.
    + apply Hadd. compute_done.
    + exact Hdelete.
    + exact (Hmove up).
    + exact (Hdrag "C"%string (Some "A"%string)).
Defined.

(** ** The edit session *)

(** C2 as stated does not hold.  After [addData] and then [deleteData] the
    session key is still the deleted record's key: the session is set and
    no record of the (empty) list carries it, and [deleteData] on the record
    the session references did not clear the session. *)
Lemma session_outlives_deleted_record :
  ¬ (∀ st, reachable st → sessionSet st → sessionPresent st) ∧
  ¬ (∀ st, reachable st → sessionPresent st → ¬ sessionSet (deleteData st)).
Proof.
  assert (reachable (addData "A" initialState)) as Hadd.
  { eapply reachable_step; [apply reachable_initial|apply step_add]. }
  split.
  - intros Hclaim.
    assert (reachable (deleteData (addData "A" initialState))) as Hdel.
    { eapply reachable_step; [exact Hadd|apply step_delete]. }
    specialize (Hclaim _ Hdel). unfold sessionSet, sessionPresent in Hclaim.
    simpl in Hclaim. apply not_elem_of_nil in Hclaim; done.
  - intros Hclaim. specialize (Hclaim _ Hadd).
    unfold sessionSet, sessionPresent in Hclaim. simpl in Hclaim.
    apply Hclaim; [left|done].
Qed.

Lemma edit_sessionPresent record st :
  record ∈ dataSource st → sessionPresent (edit record st).
Proof.
  intros Hr. unfold sessionPresent. simpl. apply elem_of_keys. eauto.
Qed.

Lemma addData_sessionPresent uuid st : sessionPresent (addData uuid st).
Proof.
  unfold sessionPresent, addData, keys. simpl. rewrite fmap_app. simpl.
  apply elem_of_app. right. left.
Qed.

Lemma sessionPresent_Permutation l k l' :
  l' ≡ₚ l →
  sessionPresent (mkState l k) ↔ sessionPresent (mkState l' k).
Proof.
  intros Hperm. unfold sessionPresent. simpl.
  by rewrite (keys_Permutation _ _ Hperm).
Qed.

(** C2, amended.  No reaction clears the session key.  After [addData] and
    after a click on a record of the list the session key is carried by a
    record of the list.  A drag end, a field change and an up or down move
    keep the session key and keep whether a record carries it.
    [deleteData] keeps the session key and leaves no record carrying it.
    A change of [tableDetails] keeps the session key. *)
Theorem session_after_step (st : State) (ev : Event) (st' : State) :
  step st ev st' →
  match ev with
  | AddClicked _ | CellClicked _ => sessionPresent st'
  | DeleteClicked => editingKey st' = editingKey st ∧ ¬ sessionPresent st'
  | TableDetailsChanged _ _ => editingKey st' = editingKey st
  | DragEnded _ _ | FormChanged _ | MoveClicked _ =>
      editingKey st' = editingKey st ∧ (sessionPresent st ↔ sessionPresent st')
  end.
Proof.
  intros Hstep. destruct Hstep as
    [uuids td st| record st Hin| active over st l' Hdrag| newData st
    | uuid st| st| action st].
  - by destruct td.
  - by apply edit_sessionPresent.
  - split; [done|]. destruct st as [l k]. simpl in *.
    apply sessionPresent_Permutation.
    rewrite <- (records_defined l'), <- Hdrag. apply onDragEnd_records.
  - split; [done|]. unfold sessionPresent. by rewrite formChange_keys.
  - apply addData_sessionPresent.
  - apply deleteData_session.
  - destruct (moveData_Permutation action st) as [Hk Hperm].
    split; [done|]. unfold sessionPresent. rewrite Hk.
    by rewrite (keys_Permutation _ _ Hperm).
Qed.

Lemma session_after_step_witness :
  editingKey (deleteData (addData "D" (mkState [rowA; rowB; rowC] "B")))
    = "D"%string ∧
  ¬ sessionPresent (deleteData (addData "D" (mkState [rowA; rowB; rowC] "B"))).
Proof.
  apply (session_after_step
           (addData "D" (mkState [rowA; rowB; rowC] "B")) DeleteClicked).
  apply step_delete.
Defined.

(** * Further properties of the handlers *)

(** ** Positions under distinct keys *)

Lemma insertAt_delete_self {T : Type} (l : list T) i x :
  l !! i = Some x → insertAt i x (delete i l) = l.
Proof.
  intros Hx. pose proof (lookup_lt_Some _ _ _ Hx) as Hlt.
  unfold insertAt. rewrite delete_take_drop.
  rewrite take_app_length' by (rewrite length_take; lia).
  rewrite drop_app_length' by (rewrite length_take; lia).
  by apply take_drop_middle.
Qed.

(** With distinct keys, [findIndex] on a record's key gives the record's
    position. *)
Lemma findIndex_NoDup l (n : nat) x :
  NoDup (keys l) → l !! n = Some x →
  findIndex (hasKey (Item.key x)) l = Z.of_nat n.
Proof.
  intros Hnd Hx. apply findIndex_Some. exists x.
  split_and!; [done|by apply hasKey_true|].
  intros m y Hm Hy. apply hasKey_false. intros Heq.
  assert (m = n); [|lia].
  apply (NoDup_lookup (keys l) m n (Item.key x) Hnd); unfold keys.
  - by rewrite list_lookup_fmap, Hy, <- Heq.
  - by rewrite list_lookup_fmap, Hx.
Qed.

Lemma lookup_keys_ne l i j x y :
  NoDup (keys l) → l !! i = Some x → l !! j = Some y → i ≠ j →
  Item.key x ≠ Item.key y.
Proof.
  intros Hnd Hx Hy Hij Heq. apply Hij.
  apply (NoDup_lookup (keys l) i j (Item.key x) Hnd); unfold keys.
  - by rewrite list_lookup_fmap, Hx.
  - by rewrite list_lookup_fmap, Hy, Heq.
Qed.

(** ** Drag end: undo, totality, ids that are not in the list *)

(** X1.  With distinct keys, a drag of [a] onto [b] is undone by dragging
    [a] onto the record that now sits at the position [a] came from. *)
Theorem onDragEnd_undo (l : list Item.t) (a b : string) :
  NoDup (keys l) → a ≠ b → a ∈ keys l → b ∈ keys l →
  ∃ (i : nat) (l' : list Item.t) (c : Item.t),
    findIndex (hasKey a) l = Z.of_nat i ∧
    onDragEnd l a (Some b) = Some <$> l' ∧
    l' !! i = Some c ∧
    onDragEnd l' a (Some (Item.key c)) = Some <$> l.
Proof.
  intros Hnd Hne Ha Hb.
  destruct (findIndex_key_present l a Ha) as (i & x & Hi & Hx & Hkx).
  destruct (findIndex_key_present l b Hb) as (j & y & Hj & Hy & Hky).
  pose proof (lookup_lt_Some _ _ _ Hx) as Hilt.
  pose proof (lookup_lt_Some _ _ _ Hy) as Hjlt.
  assert (i ≠ j) as Hij by (intros ->; congruence).
  assert (j ≤ length (delete i l)) as Hjle.
  { rewrite length_delete by eauto. lia. }
  set (l' := insertAt j x (delete i l)).
  assert (l' ≡ₚ l) as Hperm.
  { unfold l'. rewrite insertAt_Permutation.
    symmetry. by apply delete_Permutation. }
  assert (NoDup (keys l')) as Hnd'.
  { by rewrite (keys_Permutation _ _ Hperm). }
  assert (l' !! j = Some x) as Hx' by by apply insertAt_lookup.
  destruct (lookup_lt_is_Some_2 l' i) as [c Hc].
  { by rewrite (Permutation_length Hperm). }
  exists i, l', c. split_and!; [done| |done|].
  - rewrite onDragEnd_unfold by by apply sameId_false.
    change (λ i0, sameId (Item.key i0) (Some b)) with (hasKey b).
    rewrite Hi, Hj. by apply arrayMove_in_range.
  - assert (Item.key x ≠ Item.key c) as Hxc.
    { by apply (lookup_keys_ne l' j i x c). }
    rewrite onDragEnd_unfold by (apply sameId_false; congruence).
    change (λ i0, sameId (Item.key i0) (Some (Item.key c)))
      with (hasKey (Item.key c)).
    rewrite <- Hkx, (findIndex_NoDup l' j x Hnd' Hx').
    rewrite (findIndex_NoDup l' i c Hnd' Hc).
    rewrite (arrayMove_in_range l' j i x Hx')
      by by rewrite (Permutation_length Hperm).
    f_equal. unfold l'. rewrite insertAt_delete by done.
    by apply insertAt_delete_self.
Qed.

Lemma onDragEnd_undo_witness :
  ∃ (i : nat) (l' : list Item.t) (c : Item.t),
    findIndex (hasKey "C") [rowA; rowB; rowC] = Z.of_nat i ∧
    onDragEnd [rowA; rowB; rowC] "C" (Some "A"%string) = Some <$> l' ∧
    l' !! i = Some c ∧
    onDragEnd l' "C" (Some (Item.key c)) = Some <$> [rowA; rowB; rowC].
Proof.
  apply (onDragEnd_undo [rowA; rowB; rowC] "C" "A"); compute_done.
Defined.

(** X2.  On a non-empty list [onDragEnd] returns an array without
    [undefined], of the same length, holding the same records, whatever the
    two ids; on the empty list, two different ids give the array
    [[undefined]]; two equal ids give the list back. *)
Theorem onDragEnd_total (l : list Item.t) (a : string) (over : option string) :
  (l ≠ [] →
     ∃ l', onDragEnd l a over = Some <$> l' ∧ l' ≡ₚ l ∧ length l' = length l) ∧
  (l = [] → sameId a over = false → onDragEnd l a over = [None]) ∧
  (sameId a over = true → onDragEnd l a over = Some <$> l).
Proof.
  split_and!.
  - intros Hl. destruct (onDragEnd_Permutation l a over Hl) as (l' & Heq & Hperm).
    exists l'. split_and!; [done..|]. by apply Permutation_length.
  - intros -> Hne. by apply onDragEnd_empty.
  - intros Hsame. unfold onDragEnd. by rewrite Hsame.
Qed.

Lemma onDragEnd_total_witness :
  (∃ l', onDragEnd [rowA; rowB; rowC] "Z" None = Some <$> l' ∧
         l' ≡ₚ [rowA; rowB; rowC] ∧ length l' = 3) ∧
  onDragEnd [] "Z" None = [None] ∧
  onDragEnd [rowA] "A" (Some "A"%string) = [Some rowA].
Proof.
  pose proof (onDragEnd_total [rowA; rowB; rowC] "Z" None) as (H1 & _ & _).
  pose proof (onDragEnd_total [] "Z" None) as (_ & H2 & _).
  pose proof (onDragEnd_total [rowA] "A" (Some "A"%string)) as (_ & _ & H3).
  split_and!; [by apply H1|by apply H2|by apply H3].
Defined.

(** X3.  When the dragged id is in the list and the drag ends over no row,
    or over an id no record carries, the dragged record is taken out and
    appended at the end; the other records keep their order. *)
Theorem onDragEnd_unknown_target (l : list Item.t) (a : string)
    (over : option string) :
  a ∈ keys l → (∀ b, over = Some b → b ∉ keys l) →
  ∃ (n : nat) (x : Item.t),
    findIndex (hasKey a) l = Z.of_nat n ∧ l !! n = Some x ∧
    onDragEnd l a over = Some <$> (delete n l ++ [x]).
Proof.
  intros Ha Hover.
  destruct (findIndex_key_present l a Ha) as (n & x & Hn & Hx & _).
  exists n, x. split_and!; [done..|]. by apply onDragEnd_target_absent.
Qed.

Lemma onDragEnd_unknown_target_witness :
  ∃ (n : nat) (x : Item.t),
    findIndex (hasKey "A") [rowA; rowB; rowC] = Z.of_nat n ∧
    [rowA; rowB; rowC] !! n = Some x ∧
    onDragEnd [rowA; rowB; rowC] "A" None =
      Some <$> (delete n [rowA; rowB; rowC] ++ [x]).
Proof.
  apply (onDragEnd_unknown_target [rowA; rowB; rowC] "A" None).
  - compute_done.
  - intros b Hb. discriminate Hb.
Defined.

(** X4.  When the dragged id is not in a non-empty list, the last record is
    the one moved: onto a target found at position [j] it is put at
    position [j]; with a target that is not in the list either, the list
    comes back unchanged. *)
Theorem onDragEnd_unknown_source (l0 : list Item.t) (z : Item.t) (a : string) :
  a ∉ keys (l0 ++ [z]) →
  (∀ b (j : nat),
     findIndex (hasKey b) (l0 ++ [z]) = Z.of_nat j →
     onDragEnd (l0 ++ [z]) a (Some b) = Some <$> insertAt j z l0) ∧
  (∀ over, (∀ b, over = Some b → b ∉ keys (l0 ++ [z])) →
     sameId a over = false →
     onDragEnd (l0 ++ [z]) a over = Some <$> (l0 ++ [z])).
Proof.
  intros Ha.
  assert ((l0 ++ [z]) !! length l0 = Some z) as Hz by by rewrite list_lookup_middle.
  assert (delete (length l0) (l0 ++ [z]) = l0) as Hdel.
  { rewrite <- (insertAt_end z l0). by rewrite insertAt_delete. }
  assert (∀ to, ∃ k : nat,
            Z.of_nat k = actualStart (Z.of_nat (length l0))
              (if (to <? 0)%Z then Z.of_nat (length (l0 ++ [z])) + to else to)%Z ∧
            arrayMove (l0 ++ [z]) (-1) to = Some <$> insertAt k z l0) as Hmove.
  { intros to.
    destruct (arrayMove_defined (l0 ++ [z]) (-1) to (length l0) z)
      as (k & _ & Hk & Heq); [|done|].
    - unfold actualStart. rewrite length_app. simpl. lia.
    - rewrite Hdel in Hk, Heq. eauto. }
  split.
  - intros b j Hj.
    assert (a ≠ b) as Hne.
    { intros <-. rewrite (findIndex_key_absent _ a Ha) in Hj. lia. }
    rewrite onDragEnd_unfold by by apply sameId_false.
    rewrite (findIndex_key_absent _ a Ha).
    change (λ i, sameId (Item.key i) (Some b)) with (hasKey b). rewrite Hj.
    destruct (Hmove (Z.of_nat j)) as (k & Hk & ->).
    assert (j < length (l0 ++ [z])) as Hjlt.
    { apply findIndex_Some in Hj as (y & Hy & _). by eapply lookup_lt_Some. }
    rewrite length_app in Hjlt. simpl in Hjlt.
    rewrite (proj2 (Z.ltb_ge _ _)) in Hk by lia.
    unfold actualStart in Hk. rewrite (proj2 (Z.ltb_ge _ _)) in Hk by lia.
    by assert (k = j) as -> by lia.
  - intros over Hover Hne.
    rewrite onDragEnd_unfold by done.
    rewrite (findIndex_key_absent _ a Ha).
    assert (findIndex (λ i, sameId (Item.key i) over) (l0 ++ [z]) = (-1)%Z) as ->.
    { destruct over as [b|]; [|apply findIndex_undefined].
      by apply (findIndex_key_absent _ b), Hover. }
    destruct (Hmove (-1)%Z) as (k & Hk & ->).
    rewrite length_app in Hk. simpl in Hk. unfold actualStart in Hk.
    rewrite (proj2 (Z.ltb_ge _ _)) in Hk by lia.
    assert (k = length l0) as -> by lia.
    by rewrite insertAt_end.
Qed.

Lemma onDragEnd_unknown_source_witness :
  onDragEnd ([rowA; rowB] ++ [rowC]) "Z" (Some "A"%string)
    = Some <$> insertAt 0 rowC [rowA; rowB] ∧
  onDragEnd ([rowA; rowB] ++ [rowC]) "Z" None = Some <$> ([rowA; rowB] ++ [rowC]).
Proof.
  destruct (onDragEnd_unknown_source [rowA; rowB] rowC "Z") as [Hfound Habsent].
  - compute_done.
  - split.
    + apply (Hfound "A"%string 0). reflexivity.
    + apply (Habsent None); [|reflexivity]. intros b Hb. discriminate Hb.
Defined.

(** ** Up and down: absent session, round trips, relation to drag end *)

(** X5.  When no record carries the session key (in particular on the empty
    list, or with the initial empty key and records with drawn keys),
    [moveData] returns the state unchanged in either direction. *)
Theorem moveData_without_session_record (action : Action) (st : State) :
  ¬ sessionPresent st → moveData action st = st.
Proof.
  intros Habsent. apply moveData_not_found.
  by apply (findIndex_key_absent (dataSource st) (editingKey st)).
Qed.

Lemma moveData_without_session_record_witness :
  moveData up (mkState [rowA; rowB; rowC] "") = mkState [rowA; rowB; rowC] "".
Proof.
  apply (moveData_without_session_record up (mkState [rowA; rowB; rowC] "")).
  unfold sessionPresent. compute_done.
Defined.

(** Two neighbours split the list around them. *)
Lemma lookup_adjacent_split {T : Type} (l : list T) n a b :
  l !! n = Some a → l !! S n = Some b →
  ∃ l1 l2, l = l1 ++ a :: b :: l2 ∧ length l1 = n.
Proof.
  intros Ha Hb. exists (take n l), (drop (S (S n)) l). split.
  - rewrite <- (drop_S l b (S n) Hb). by rewrite (take_drop_middle l n a Ha).
  - rewrite length_take. apply lookup_lt_Some in Ha. lia.
Qed.

Lemma drop_adjacent {T : Type} (l1 l2 : list T) n a b :
  length l1 = n → drop (S (S n)) (l1 ++ a :: b :: l2) = l2.
Proof. intros <-. induction l1 as [|x l1 IH]; [done|]. exact IH. Qed.

Lemma setDataSource_same st : setDataSource (dataSource st) st = st.
Proof. by destruct st. Qed.

Lemma setDataSource_twice l l' st :
  setDataSource l (setDataSource l' st) = setDataSource l st.
Proof. done. Qed.

(** The position of the session record in a list that agrees with the
    original one before that position. *)
Lemma findIndex_isEditing_at st l (n : nat) r :
  l !! n = Some r → Item.key r = editingKey st →
  (∀ m y, m < n → l !! m = Some y → Item.key y ≠ editingKey st) →
  findIndex (isEditing (setDataSource l st)) l = Z.of_nat n.
Proof.
  intros Hr Hk Hbefore. apply findIndex_Some. exists r.
  split_and!; [done|by apply String.eqb_eq|].
  intros m y Hm Hy. apply String.eqb_neq. by eapply Hbefore.
Qed.

Lemma findIndex_isEditing_before st (n : nat) m y :
  findIndex (isEditing st) (dataSource st) = Z.of_nat n →
  m < n → dataSource st !! m = Some y → Item.key y ≠ editingKey st.
Proof.
  intros Hn Hm Hy. apply findIndex_Some in Hn as (_ & _ & _ & Hbefore).
  apply String.eqb_neq. by eapply Hbefore.
Qed.

(** X6.  [moveData down] undoes [moveData up]: when the session record is
    not the first one, moving it up and then down gives the state back. *)
Theorem moveData_up_then_down (st : State) (n : nat) :
  findIndex (isEditing st) (dataSource st) = Z.of_nat (S n) →
  moveData down (moveData up st) = st.
Proof.
  intros Hn. destruct (findIndex_isEditing st (S n) Hn) as (r & Hr & Hk).
  destruct (moveData_up_found st (S n) r Hn Hr) as (prev & Hprev & ->).
  destruct (lookup_adjacent_split _ n prev r Hprev Hr) as (l1 & l2 & Hl & Hlen).
  rewrite Hl. rewrite take_app_length' by done.
  rewrite drop_adjacent by done.
  set (L := l1 ++ r :: prev :: l2).
  assert (findIndex (isEditing (setDataSource L st)) L = Z.of_nat n) as Hn'.
  { apply (findIndex_isEditing_at st L n r); [by apply list_lookup_middle|done|].
    intros m y Hm Hy. apply (findIndex_isEditing_before st (S n) m y Hn); [lia|].
    rewrite Hl. unfold L in Hy.
    rewrite lookup_app_l in Hy |- * by lia. done. }
  destruct (moveData_down_found (setDataSource L st) n r Hn') as [_ Hswap].
  { by apply list_lookup_middle. }
  destruct Hswap as (next & Hnext & ->).
  { simpl. unfold L. rewrite length_app. simpl. lia. }
  simpl in Hnext |- *. unfold L in Hnext |- *.
  rewrite take_app_length' by done.
  rewrite drop_adjacent by done.
  rewrite (lookup_app_r l1) in Hnext by lia.
  replace (S n - length l1) with 1 in Hnext by lia. simpl in Hnext.
  simplify_eq. rewrite setDataSource_twice, <- Hl.
  apply setDataSource_same.
Qed.

Lemma moveData_up_then_down_witness :
  moveData down (moveData up (mkState [rowA; rowB; rowC] "C"))
    = mkState [rowA; rowB; rowC] "C".
Proof.
  apply (moveData_up_then_down (mkState [rowA; rowB; rowC] "C") 1).
  reflexivity.
Defined.

(** X7.  With distinct keys [moveData up] undoes [moveData down]: when the
    session record is not the last one, moving it down and then up gives
    the state back. *)
Theorem moveData_down_then_up (st : State) (n : nat) :
  NoDup (keys (dataSource st)) →
  findIndex (isEditing st) (dataSource st) = Z.of_nat n →
  S n ≠ length (dataSource st) →
  moveData up (moveData down st) = st.
Proof.
  intros Hnd Hn Hlast.
  destruct (findIndex_isEditing st n Hn) as (r & Hr & Hk).
  destruct (moveData_down_found st n r Hn Hr) as [_ Hswap].
  destruct (Hswap Hlast) as (next & Hnext & ->).
  assert (Item.key next ≠ editingKey st) as Hnk.
  { rewrite <- Hk. apply (lookup_keys_ne (dataSource st) (S n) n); [done..|lia]. }
  destruct (lookup_adjacent_split _ n r next Hr Hnext) as (l1 & l2 & Hl & Hlen).
  rewrite Hl. rewrite take_app_length' by done.
  rewrite drop_adjacent by done.
  set (L := l1 ++ next :: r :: l2).
  assert (L !! S n = Some r) as Hr'.
  { unfold L. rewrite lookup_app_r by lia.
    by replace (S n - length l1) with 1 by lia. }
  assert (findIndex (isEditing (setDataSource L st)) L = Z.of_nat (S n)) as Hn'.
  { apply (findIndex_isEditing_at st L (S n) r); [done..|].
    intros m y Hm Hy. destruct (decide (m = n)) as [->|Hmn].
    - unfold L in Hy. rewrite list_lookup_middle in Hy by done. by simplify_eq.
    - apply (findIndex_isEditing_before st n m y Hn); [lia|].
      rewrite Hl. unfold L in Hy.
      rewrite lookup_app_l in Hy |- * by lia. done. }
  destruct (moveData_up_found (setDataSource L st) (S n) r Hn' Hr')
    as (prev & Hprev & ->).
  simpl in Hprev |- *. unfold L in Hprev |- *.
  rewrite list_lookup_middle in Hprev by done. simplify_eq.
  rewrite take_app_length' by done.
  rewrite drop_adjacent by done.
  rewrite setDataSource_twice, <- Hl. apply setDataSource_same.
Qed.

Lemma moveData_down_then_up_witness :
  moveData up (moveData down (mkState [rowA; rowB; rowC] "A"))
    = mkState [rowA; rowB; rowC] "A".
Proof.
  apply (moveData_down_then_up (mkState [rowA; rowB; rowC] "A") 0).
  - compute_done.
  - reflexivity.
  - compute_done.
Defined.

Lemma delete_app_length {T : Type} (l1 l2 : list T) a :
  delete (length l1) (l1 ++ a :: l2) = l1 ++ l2.
Proof. induction l1 as [|x l1 IH]; [done|]. simpl. by rewrite IH. Qed.

Lemma insertAt_app_length {T : Type} (l1 l2 : list T) x :
  insertAt (length l1) x (l1 ++ l2) = l1 ++ x :: l2.
Proof. unfold insertAt. by rewrite take_app_length, drop_app_length. Qed.

Lemma snoc_cons_app {T : Type} (l1 l2 : list T) a :
  l1 ++ a :: l2 = (l1 ++ [a]) ++ l2 ∧ length (l1 ++ [a]) = S (length l1).
Proof. rewrite <- app_assoc, length_app. simpl. split; [done|lia]. Qed.

(** [arrayMove] between two neighbours exchanges them. *)
Lemma arrayMove_adjacent {T : Type} (l1 l2 : list T) a b :
  arrayMove (l1 ++ a :: b :: l2) (Z.of_nat (S (length l1))) (Z.of_nat (length l1))
    = Some <$> (l1 ++ b :: a :: l2) ∧
  arrayMove (l1 ++ a :: b :: l2) (Z.of_nat (length l1)) (Z.of_nat (S (length l1)))
    = Some <$> (l1 ++ b :: a :: l2).
Proof.
  destruct (snoc_cons_app l1 (b :: l2) a) as [Ha Hla].
  destruct (snoc_cons_app l1 l2 b) as [Hb Hlb].
  split.
  - rewrite (arrayMove_in_range _ (S (length l1)) (length l1) b).
    + rewrite Ha, <- Hla, delete_app_length, <- app_assoc. simpl.
      by rewrite insertAt_app_length.
    + rewrite Ha, <- Hla. by apply list_lookup_middle.
    + rewrite length_app. simpl. lia.
  - rewrite (arrayMove_in_range _ (length l1) (S (length l1)) a).
    + rewrite delete_app_length, Hb, <- Hlb, insertAt_app_length.
      by rewrite <- app_assoc.
    + by apply list_lookup_middle.
    + rewrite length_app. simpl. lia.
Qed.

(** X8.  With distinct keys the up and down buttons are drag moves onto the
    neighbour: [moveData up] gives the list [onDragEnd] returns for the
    session key dragged onto the previous record, [moveData down] the one
    for the session key dragged onto the next record. *)
Theorem moveData_is_drag_onto_neighbour (st : State) (n : nat) :
  NoDup (keys (dataSource st)) →
  findIndex (isEditing st) (dataSource st) = Z.of_nat n →
  (∀ m prev, n = S m → dataSource st !! m = Some prev →
     onDragEnd (dataSource st) (editingKey st) (Some (Item.key prev))
       = Some <$> dataSource (moveData up st)) ∧
  (∀ next, dataSource st !! S n = Some next →
     onDragEnd (dataSource st) (editingKey st) (Some (Item.key next))
       = Some <$> dataSource (moveData down st)).
Proof.
  intros Hnd Hn. destruct (findIndex_isEditing st n Hn) as (r & Hr & Hk).
  change (isEditing st) with (hasKey (editingKey st)) in Hn. split.
  - intros m prev -> Hprev.
    assert (Item.key r ≠ Item.key prev) as Hne.
    { apply (lookup_keys_ne (dataSource st) (S m) m); [done..|lia]. }
    rewrite onDragEnd_unfold by (apply sameId_false; congruence).
    change (λ i, sameId (Item.key i) (Some (Item.key prev)))
      with (hasKey (Item.key prev)).
    rewrite Hn, (findIndex_NoDup _ m prev Hnd Hprev).
    destruct (moveData_up_found st (S m) r Hn Hr) as (prev' & Hprev' & ->).
    simplify_eq. simpl.
    destruct (lookup_adjacent_split _ m prev r Hprev Hr) as (l1 & l2 & Hl & <-).
    rewrite Hl, (proj1 (arrayMove_adjacent l1 l2 prev r)).
    by rewrite take_app_length, drop_adjacent.
  - intros next Hnext.
    assert (Item.key r ≠ Item.key next) as Hne.
    { apply (lookup_keys_ne (dataSource st) n (S n)); [done..|lia]. }
    rewrite onDragEnd_unfold by (apply sameId_false; congruence).
    change (λ i, sameId (Item.key i) (Some (Item.key next)))
      with (hasKey (Item.key next)).
    rewrite Hn, (findIndex_NoDup _ (S n) next Hnd Hnext).
    destruct (moveData_down_found st n r Hn Hr) as [_ Hswap].
    destruct Hswap as (next' & Hnext' & ->).
    { apply lookup_lt_Some in Hnext. lia. }
    simplify_eq. simpl.
    destruct (lookup_adjacent_split _ n r next Hr Hnext) as (l1 & l2 & Hl & <-).
    rewrite Hl, (proj2 (arrayMove_adjacent l1 l2 r next)).
    by rewrite take_app_length, drop_adjacent.
Qed.

Lemma moveData_is_drag_onto_neighbour_witness :
  onDragEnd [rowA; rowB; rowC] "B" (Some "A"%string)
    = Some <$> dataSource (moveData up (mkState [rowA; rowB; rowC] "B")) ∧
  onDragEnd [rowA; rowB; rowC] "B" (Some "C"%string)
    = Some <$> dataSource (moveData down (mkState [rowA; rowB; rowC] "B")).
Proof.
  destruct (moveData_is_drag_onto_neighbour (mkState [rowA; rowB; rowC] "B") 1)
    as [Hup Hdown].
  - compute_done.
  - reflexivity.
  - split.
    + exact (Hup 0 rowA eq_refl eq_refl).
    + exact (Hdown rowC eq_refl).
Defined.

(** Pressing up [k] times moves the session record [k] places towards the
    front. *)
Lemma moveData_up_iter st (n : nat) r k :
  findIndex (isEditing st) (dataSource st) = Z.of_nat n →
  dataSource st !! n = Some r → k ≤ n →
  Nat.iter k (moveData up) st =
    setDataSource (insertAt (n - k) r (delete n (dataSource st))) st.
Proof.
  intros Hn Hr. pose proof (lookup_lt_Some _ _ _ Hr) as Hlt.
  destruct (findIndex_isEditing st n Hn) as (r' & Hr' & Hk). simplify_eq.
  set (D := delete n (dataSource st)).
  assert (length D = length (dataSource st) - 1) as HlenD.
  { unfold D. rewrite length_delete; eauto. }
  induction k as [|k IH]; intros Hle.
  - rewrite Nat.sub_0_r. unfold D. rewrite insertAt_delete_self by done.
    simpl. by rewrite setDataSource_same.
  - rewrite Nat.iter_succ, IH by lia. clear IH.
    replace (n - k) with (S (n - S k)) by lia.
    set (m := n - S k).
    destruct (lookup_lt_is_Some_2 D m) as [prev Hprev]; [lia|].
    destruct (list_elem_of_split_length D m prev Hprev) as (d1 & d2 & HD & Hd1).
    destruct (snoc_cons_app d1 d2 prev) as [Hsnoc Hlsnoc].
    assert (insertAt (S m) r D = d1 ++ prev :: r :: d2) as HL.
    { rewrite HD, Hsnoc. rewrite Hd1, <- Hlsnoc, insertAt_app_length.
      by rewrite <- app_assoc. }
    rewrite HL.
    assert (findIndex
              (isEditing (setDataSource (d1 ++ prev :: r :: d2) st))
              (d1 ++ prev :: r :: d2) = Z.of_nat (S m)) as Hn'.
    { apply (findIndex_isEditing_at st _ (S m) r); [|done|].
      - rewrite (proj1 (snoc_cons_app d1 (r :: d2) prev)).
        apply list_lookup_middle. lia.
      - intros j y Hj Hy.
        apply (findIndex_isEditing_before st n j y Hn); [lia|].
        assert (D !! j = Some y) as HDj.
        { rewrite HD. destruct (decide (j = m)) as [->|Hjm].
          - rewrite list_lookup_middle in Hy |- * by done. done.
          - rewrite lookup_app_l in Hy |- * by lia. done. }
        unfold D in HDj. by rewrite list_lookup_delete_lt in HDj by lia. }
    destruct (moveData_up_found _ (S m) r Hn') as (prev' & Hprev' & ->).
    { simpl. rewrite (proj1 (snoc_cons_app d1 (r :: d2) prev)).
      apply list_lookup_middle. lia. }
    simpl in Hprev' |- *. rewrite list_lookup_middle in Hprev' by done.
    simplify_eq. rewrite setDataSource_twice. f_equal.
    rewrite take_app_length', drop_adjacent by done.
    by rewrite HD, Hd1, insertAt_app_length.
Qed.

(** X9.  Pressing up as many times as the position of the session record
    brings that record to the front; the other records keep their order and
    the session is the same. *)
Theorem moveData_up_to_front (st : State) (n : nat) :
  findIndex (isEditing st) (dataSource st) = Z.of_nat n →
  ∃ r, dataSource st !! n = Some r ∧ Item.key r = editingKey st ∧
    Nat.iter n (moveData up) st =
      setDataSource (r :: delete n (dataSource st)) st ∧
    moveData up (Nat.iter n (moveData up) st) = Nat.iter n (moveData up) st.
Proof.
  intros Hn. destruct (findIndex_isEditing st n Hn) as (r & Hr & Hk).
  exists r. split_and!; [done..| |].
  - rewrite (moveData_up_iter st n r n Hn Hr) by lia.
    rewrite Nat.sub_diag. unfold insertAt. by rewrite take_0, drop_0.
  - rewrite (moveData_up_iter st n r n Hn Hr) by lia.
    rewrite Nat.sub_diag. unfold insertAt. rewrite take_0, drop_0. simpl.
    set (L := r :: delete n (dataSource st)).
    assert (findIndex (isEditing (setDataSource L st)) L = Z.of_nat 0) as Hn'.
    { apply (findIndex_isEditing_at st L 0 r); [done..|]. intros; lia. }
    exact (moveData_up_found (setDataSource L st) 0 r Hn' eq_refl).
Qed.

Lemma moveData_up_to_front_witness :
  ∃ r, [rowA; rowB; rowC] !! 2 = Some r ∧ Item.key r = "C"%string ∧
    moveData up (moveData up (mkState [rowA; rowB; rowC] "C")) =
      mkState (r :: delete 2 [rowA; rowB; rowC]) "C" ∧
    moveData up (moveData up (moveData up (mkState [rowA; rowB; rowC] "C"))) =
      moveData up (moveData up (mkState [rowA; rowB; rowC] "C")).
Proof.
  apply (moveData_up_to_front (mkState [rowA; rowB; rowC] "C") 2).
  reflexivity.
Defined.

(** ** Delete and add together *)

(** X10.  Pressing delete twice deletes once: after [deleteData] no record
    carries the session key, which is still set, so a second [deleteData]
    changes nothing. *)
Theorem deleteData_idempotent (st : State) :
  deleteData (deleteData st) = deleteData st.
Proof. apply deleteData_absent. apply deleteData_session. Qed.

(** X11.  [deleteData] right after [addData] with a fresh key takes the new
    record out again: the list is the one before the add, and the session
    is left on the key of the record that is gone. *)
Theorem deleteData_after_addData (uuid : string) (st : State) :
  uuid ∉ keys (dataSource st) →
  deleteData (addData uuid st) = mkState (dataSource st) uuid.
Proof.
  intros Hfresh. unfold deleteData, addData, edit, setDataSource, setEditingKey.
  simpl. f_equal. rewrite list.filter_app.
  rewrite filter_cons_False by (intros Hne; by apply Hne).
  rewrite filter_nil, app_nil_r. apply filter_all.
  intros r Hr Hk. apply Hfresh. apply elem_of_keys. eauto.
Qed.

Lemma deleteData_after_addData_witness :
  deleteData (addData "D" (mkState [rowA; rowB; rowC] "B"))
    = mkState [rowA; rowB; rowC] "D".
Proof.
  apply (deleteData_after_addData "D" (mkState [rowA; rowB; rowC] "B")).
  compute_done.
Defined.

(** ** Field changes compose *)

Lemma merge_merge r b1 b2 : merge (merge r b1) b2 = merge r (overlay b1 b2).
Proof.
  unfold merge, overlay. simpl. f_equal.
  - by destruct (FormValues.columnName b2).
  - by destruct (FormValues.length b2).
  - by destruct (FormValues.fieldType b2).
  - by destruct (FormValues.nullable b2).
  - by destruct (FormValues.comment b2).
Qed.

Lemma overlay_same b : overlay b b = b.
Proof. by destruct b as [[?|] [?|] [?|] [?|] [?|]]. Qed.

(** X12.  Two field changes in a row amount to one with the second form
    values laid over the first; in particular a repeated field change with
    the same form values changes nothing more. *)
Theorem formChange_twice (b1 b2 : FormValues.t) (st : State) :
  formChange b2 (formChange b1 st) = formChange (overlay b1 b2) st ∧
  formChange b1 (formChange b1 st) = formChange b1 st.
Proof.
  assert (∀ b b', formChange b' (formChange b st) = formChange (overlay b b') st)
    as Htwice.
  { intros b b'. unfold formChange, setDataSource. simpl. f_equal.
    rewrite <- list_fmap_compose. apply list_fmap_ext. intros _ r _. simpl.
    destruct (Item.key r =? editingKey st)%string eqn:Hk; simpl.
    - by rewrite Hk, merge_merge.
    - by rewrite Hk. }
  split; [apply Htwice|]. by rewrite Htwice, overlay_same.
Qed.

(** X13.  A field change leaves the state as it is when no record carries
    the session key, and when the form values hold no property. *)
Theorem formChange_nothing_to_merge (newData : FormValues.t) (st : State) :
  (¬ sessionPresent st → formChange newData st = st) ∧
  formChange noValues st = st.
Proof.
  split.
  - intros Habsent. destruct st as [l k]. unfold formChange, setDataSource.
    simpl. f_equal. rewrite <- (list_fmap_id l) at 2.
    apply list_fmap_ext. intros i r Hr. simpl.
    destruct (String.eqb_spec (Item.key r) k) as [Hk|]; [|done].
    destruct Habsent. apply elem_of_keys. exists r. split; [|done].
    by eapply list_elem_of_lookup_2.
  - destruct st as [l k]. unfold formChange, setDataSource. simpl. f_equal.
    rewrite <- (list_fmap_id l) at 2.
    apply list_fmap_ext. intros _ r _. simpl.
    destruct (Item.key r =? k)%string; [|done]. by destruct r.
Qed.

Lemma formChange_nothing_to_merge_witness :
  formChange (FormValues.mk (Some "x"%string) None None None None)
    (mkState [rowA; rowB; rowC] "") = mkState [rowA; rowB; rowC] "".
Proof.
  apply (proj1 (formChange_nothing_to_merge
                  (FormValues.mk (Some "x"%string) None None None None)
                  (mkState [rowA; rowB; rowC] ""))).
  unfold sessionPresent. compute_done.
Defined.

(** ** Loading replaces the list *)

Lemma tableDetailsEffect_keys uuids td cols st :
  columnList td = Some cols →
  keys (dataSource (tableDetailsEffect uuids (Some td) st))
    = uuids <$> seq 0 (length cols).
Proof.
  intros Hcols. apply list_eq. intros n. unfold keys.
  rewrite !list_lookup_fmap, (tableDetailsEffect_lookup _ _ cols) by done.
  destruct (cols !! n) as [t|] eqn:Ht; simpl.
  - by rewrite lookup_seq_lt by by eapply lookup_lt_Some.
  - by rewrite lookup_seq_ge by by apply lookup_ge_None.
Qed.

Lemma tableDetailsEffect_NoDup uuids td cols st :
  columnList td = Some cols → distinctDraws uuids (length cols) →
  NoDup (keys (dataSource (tableDetailsEffect uuids (Some td) st))).
Proof.
  intros Hcols Hdistinct. rewrite (tableDetailsEffect_keys _ _ cols) by done.
  apply NoDup_alt. intros i j k Hi Hj.
  apply list_lookup_fmap_Some in Hi as (i' & -> & Hi).
  apply list_lookup_fmap_Some in Hj as (j' & Heq & Hj).
  apply lookup_seq in Hi as [-> Hi]. apply lookup_seq in Hj as [-> Hj].
  simpl in Heq |- *. by apply Hdistinct.
Qed.

(** X14.  Loading table details that have a column list replaces the list:
    there is one record per column, in column order, with the drawn values
    as keys and the names and comments copied; the list that was there
    before plays no part, and the session key is kept.  When the drawn
    values are pairwise different, so are the keys. *)
Theorem tableDetailsEffect_replaces (uuids : nat → string) (td : TableDetails)
    (cols : list Column.t) (st : State) :
  columnList td = Some cols →
  editingKey (tableDetailsEffect uuids (Some td) st) = editingKey st ∧
  length (dataSource (tableDetailsEffect uuids (Some td) st)) = length cols ∧
  keys (dataSource (tableDetailsEffect uuids (Some td) st))
    = uuids <$> seq 0 (length cols) ∧
  Item.columnName <$> dataSource (tableDetailsEffect uuids (Some td) st)
    = Column.name <$> cols ∧
  Item.comment <$> dataSource (tableDetailsEffect uuids (Some td) st)
    = Column.comment <$> cols ∧
  (∀ st', dataSource (tableDetailsEffect uuids (Some td) st')
          = dataSource (tableDetailsEffect uuids (Some td) st)) ∧
  (distinctDraws uuids (length cols) →
   NoDup (keys (dataSource (tableDetailsEffect uuids (Some td) st)))).
Proof.
  intros Hcols. split_and!.
  - done.
  - unfold tableDetailsEffect. rewrite Hcols. simpl. apply length_imap.
  - by apply tableDetailsEffect_keys.
  - apply list_eq. intros n.
    rewrite !list_lookup_fmap, (tableDetailsEffect_lookup _ _ cols) by done.
    by destruct (cols !! n).
  - apply list_eq. intros n.
    rewrite !list_lookup_fmap, (tableDetailsEffect_lookup _ _ cols) by done.
    by destruct (cols !! n).
  - intros st'. unfold tableDetailsEffect. by rewrite Hcols.
  - by apply tableDetailsEffect_NoDup.
Qed.

Lemma tableDetailsEffect_replaces_witness :
  keys (dataSource
          (tableDetailsEffect (λ n, if n is 0 then "k"%string else "kk"%string)
             (Some (mkTableDetails
                      (Some [Column.mk "id" (Some 11%Z) None 0 None;
                             Column.mk "name" None None 1 (Some "n"%string)])))
             (mkState [rowA; rowB; rowC] "B")))
    = ["k"%string; "kk"%string] ∧
  NoDup (keys (dataSource
          (tableDetailsEffect (λ n, if n is 0 then "k"%string else "kk"%string)
             (Some (mkTableDetails
                      (Some [Column.mk "id" (Some 11%Z) None 0 None;
                             Column.mk "name" None None 1 (Some "n"%string)])))
             (mkState [rowA; rowB; rowC] "B")))).
Proof.
  destruct (tableDetailsEffect_replaces (λ n, if n is 0 then "k"%string else "kk"%string)
              (mkTableDetails
                 (Some [Column.mk "id" (Some 11%Z) None 0 None;
                        Column.mk "name" None None 1 (Some "n"%string)]))
              [Column.mk "id" (Some 11%Z) None 0 None;
               Column.mk "name" None None 1 (Some "n"%string)]
              (mkState [rowA; rowB; rowC] "B") eq_refl)
    as (_ & _ & Hkeys & _ & _ & _ & Hnd).
  split; [exact Hkeys|]. apply Hnd.
  intros i j Hi Hj. simpl in Hi, Hj.
  destruct i as [|[|i]], j as [|[|j]]; try lia; done.
Defined.

(** X15.  A load whose drawn values all differ from the session key ends
    the edit session in effect: the session key is kept but no record
    carries it, so [deleteData], [moveData] and [formChange] then leave the
    state as it is. *)
Theorem tableDetailsEffect_invalidates_session (uuids : nat → string)
    (td : TableDetails) (st : State) :
  (∀ cols n, columnList td = Some cols → n < length cols →
             uuids n ≠ editingKey st) →
  ¬ sessionPresent (tableDetailsEffect uuids (Some td) st) ∧
  deleteData (tableDetailsEffect uuids (Some td) st)
    = tableDetailsEffect uuids (Some td) st ∧
  (∀ action, moveData action (tableDetailsEffect uuids (Some td) st)
             = tableDetailsEffect uuids (Some td) st) ∧
  (∀ newData, formChange newData (tableDetailsEffect uuids (Some td) st)
              = tableDetailsEffect uuids (Some td) st).
Proof.
  intros Hdraws.
  assert (¬ sessionPresent (tableDetailsEffect uuids (Some td) st)) as Habsent.
  { unfold sessionPresent. destruct (columnList td) as [cols|] eqn:Hcols.
    - rewrite (tableDetailsEffect_keys _ _ cols) by done. simpl.
      intros Hin. apply list_elem_of_fmap in Hin as (n & Heq & Hn).
      apply elem_of_seq in Hn. apply (Hdraws cols n eq_refl); [lia|done].
    - unfold tableDetailsEffect. rewrite Hcols. simpl. apply not_elem_of_nil. }
  split_and!; [done| | |].
  - by apply deleteData_absent.
  - intros action. apply moveData_not_found.
    by apply (findIndex_key_absent _ _ Habsent).
  - intros newData.
    set (st' := tableDetailsEffect uuids (Some td) st) in *.
    destruct st' as [l k]. unfold formChange, setDataSource. simpl. f_equal.
    rewrite <- (list_fmap_id l) at 2.
    apply list_fmap_ext. intros i r Hr. simpl.
    destruct (String.eqb_spec (Item.key r) k) as [Hk|]; [|done].
    destruct Habsent. apply elem_of_keys. exists r. split; [|done].
    by eapply list_elem_of_lookup_2.
Qed.

Lemma tableDetailsEffect_invalidates_session_witness :
  ¬ sessionPresent
      (tableDetailsEffect (λ _, "k"%string)
         (Some (mkTableDetails (Some [Column.mk "id" None None 0 None])))
         (mkState [rowA; rowB] "A")) ∧
  deleteData
    (tableDetailsEffect (λ _, "k"%string)
       (Some (mkTableDetails (Some [Column.mk "id" None None 0 None])))
       (mkState [rowA; rowB] "A"))
  = tableDetailsEffect (λ _, "k"%string)
      (Some (mkTableDetails (Some [Column.mk "id" None None 0 None])))
      (mkState [rowA; rowB] "A").
Proof.
  destruct (tableDetailsEffect_invalidates_session (λ _, "k"%string)
              (mkTableDetails (Some [Column.mk "id" None None 0 None]))
              (mkState [rowA; rowB] "A")) as (Habsent & Hdelete & _).
  - intros cols n _ _. done.
  - by split.
Defined.

(** ** Distinct keys in every state *)

Lemma step_NoDup st ev st' :
  step st ev st' → freshDraws st ev →
  NoDup (keys (dataSource st)) → NoDup (keys (dataSource st')).
Proof.
  intros Hstep. destruct Hstep as
    [uuids td st| record st Hin| active over st l' Hdrag| newData st
    | uuid st| st| action st]; intros Hfresh Hnd.
  - destruct td as [td|]; [|done]. simpl in Hfresh.
    destruct (columnList td) as [cols|] eqn:Hcols.
    + by apply (tableDetailsEffect_NoDup uuids td cols).
    + unfold tableDetailsEffect. rewrite Hcols. simpl. apply NoDup_nil_2.
  - done.
  - rewrite <- (records_defined l'), <- Hdrag. by apply onDragEnd_NoDup.
  - by rewrite formChange_keys.
  - by apply addData_NoDup.
  - by apply deleteData_NoDup.
  - by apply moveData_NoDup.
Qed.

(** X16.  When every value drawn from [uuidv4()] is fresh, the keys of the
    records are pairwise different in every state the component reaches,
    whatever the sequence of loads, clicks, drags, field changes, adds,
    deletes and moves. *)
Theorem reachableFresh_distinct_keys (st : State) :
  reachableFresh st → NoDup (keys (dataSource st)).
Proof.
  induction 1 as [|st ev st' _ IH Hfresh Hstep].
  - apply NoDup_nil_2.
  - by apply (step_NoDup st ev st').
Qed.

Lemma reachableFresh_distinct_keys_witness :
  NoDup (keys (dataSource (moveData up (addData "B" (addData "A" initialState))))).
Proof.
  apply reachableFresh_distinct_keys.
  apply (reachableFresh_step (addData "B" (addData "A" initialState))
           (MoveClicked up)); [|exact I|apply step_move].
  apply (reachableFresh_step (addData "A" initialState) (AddClicked "B"));
    [| |apply step_add].
  - apply (reachableFresh_step initialState (AddClicked "A"));
      [apply reachableFresh_initial| |apply step_add].
    simpl. apply not_elem_of_nil.
  - simpl. compute_done.
Defined.

(** ** Cells *)

Lemma render_not_editing types st c record :
  c ≠ DataIndex.nullable → isEditing st record = false →
  render types st c record = EditableCell (cellValue c record) record.
Proof. intros Hc Hk. destruct c; simpl; by rewrite ?Hk. Qed.

Lemma render_editing types st c record :
  c ≠ DataIndex.nullable → isEditing st record = true →
  ∃ name control, render types st c record = FormItem name control.
Proof. intros Hc Hk. destruct c; simpl; rewrite ?Hk; by eauto. Qed.

Lemma render_FormItem_editing types st c record name control :
  c ≠ DataIndex.nullable →
  render types st c record = FormItem name control →
  Item.key record = editingKey st.
Proof.
  intros Hc Hcell. apply String.eqb_eq.
  destruct (Item.key record =? editingKey st)%string eqn:Hk; [done|].
  rewrite render_not_editing in Hcell by done. discriminate Hcell.
Qed.

(** X17.  A click on the content of a read-only cell starts the edit session
    on the record of that row: afterwards every record with that key shows
    form items in the name, length, type and comment columns, and every
    record with another key shows read-only cells that carry its own
    values and, on click, edit that record. *)
Theorem click_starts_edit (types : list string) (st : State)
    (c : DataIndex.t) (record : Item.t) :
  c ≠ DataIndex.nullable → isEditing st record = false →
  click (render types st c record) st = edit record st ∧
  ∀ c' r', c' ≠ DataIndex.nullable →
    (Item.key r' = Item.key record →
       ∃ name control,
         render types (click (render types st c record) st) c' r'
           = FormItem name control) ∧
    (Item.key r' ≠ Item.key record →
       render types (click (render types st c record) st) c' r'
         = EditableCell (cellValue c' r') r').
Proof.
  intros Hc Hk. rewrite render_not_editing by done. simpl.
  split; [done|]. intros c' r' Hc'. split; intros Hkey.
  - apply render_editing; [done|]. by apply String.eqb_eq.
  - apply render_not_editing; [done|]. by apply String.eqb_neq.
Qed.

Lemma click_starts_edit_witness :
  click (render [] (mkState [rowA; rowB; rowC] "") DataIndex.columnName rowB)
    (mkState [rowA; rowB; rowC] "") = mkState [rowA; rowB; rowC] "B".
Proof.
  apply (click_starts_edit [] (mkState [rowA; rowB; rowC] "")
           DataIndex.columnName rowB); done.
Defined.

(** X18.  With distinct keys at most one row of the table is editable: two
    positions of the list whose cells in the name, length, type or comment
    columns are form items are the same position. *)
Theorem one_row_editable (types : list string) (st : State) (i j : nat)
    (ri rj : Item.t) (ci cj : DataIndex.t) (ni nj : string)
    (ctli ctlj : Control) :
  NoDup (keys (dataSource st)) →
  dataSource st !! i = Some ri → dataSource st !! j = Some rj →
  ci ≠ DataIndex.nullable → cj ≠ DataIndex.nullable →
  render types st ci ri = FormItem ni ctli →
  render types st cj rj = FormItem nj ctlj →
  i = j.
Proof.
  intros Hnd Hi Hj Hci Hcj Hcelli Hcellj.
  apply render_FormItem_editing in Hcelli; [|done].
  apply render_FormItem_editing in Hcellj; [|done].
  destruct (decide (i = j)) as [|Hne]; [done|].
  destruct (lookup_keys_ne _ i j ri rj Hnd Hi Hj Hne). congruence.
Qed.

Lemma one_row_editable_witness : 1 = 1.
Proof.
  apply (one_row_editable [] (mkState [rowA; rowB; rowC] "B") 1 1 rowB rowB
           DataIndex.columnName DataIndex.comment
           "columnName" "comment" Input Input);
    [compute_done|reflexivity..|done|done|reflexivity|reflexivity].
Defined.

(** X19.  After [deleteData] no row is editable: every record of the list
    shows read-only cells in the name, length, type and comment columns,
    while its nullable cell is still a form item with a checkbox. *)
Theorem deleteData_leaves_no_editor (types : list string) (st : State)
    (record : Item.t) :
  record ∈ dataSource (deleteData st) →
  (∀ c, c ≠ DataIndex.nullable →
     render types (deleteData st) c record
       = EditableCell (cellValue c record) record) ∧
  render types (deleteData st) DataIndex.nullable record
    = FormItem "nullable" (Checkbox (Item.nullable record)).
Proof.
  intros Hin. split; [|done]. intros c Hc.
  apply render_not_editing; [done|]. apply String.eqb_neq. intros Hk.
  destruct (deleteData_session st) as [_ Habsent]. apply Habsent.
  apply elem_of_keys. eauto.
Qed.

Lemma deleteData_leaves_no_editor_witness :
  (∀ c, c ≠ DataIndex.nullable →
     render [] (deleteData (mkState [rowA; rowB; rowC] "B")) c rowA
       = EditableCell (cellValue c rowA) rowA) ∧
  render [] (deleteData (mkState [rowA; rowB; rowC] "B")) DataIndex.nullable rowA
    = FormItem "nullable" (Checkbox false).
Proof.
  apply (deleteData_leaves_no_editor [] (mkState [rowA; rowB; rowC] "B") rowA).
  apply list_elem_of_filter. split; [done|left].
Defined.

(** X20.  The type selector of an editable row offers the type names of the
    service's reply, in the reply's order, each as both label and value;
    with no reply yet it offers nothing. *)
Theorem render_fieldType_options (res : list FieldType) (st : State)
    (record : Item.t) :
  isEditing st record = true →
  (∃ options,
     render (fieldTypeListEffect res) st DataIndex.fieldType record
       = FormItem "fieldType" (Select options) ∧
     options.*1 = typeName <$> res ∧ options.*2 = typeName <$> res) ∧
  render [] st DataIndex.fieldType record = FormItem "fieldType" (Select []).
Proof.
  intros Hk. simpl. rewrite Hk. split; [|done].
  eexists. split; [done|]. unfold fieldTypeListEffect.
  rewrite <- !list_fmap_compose. split; by apply list_fmap_ext.
Qed.

Lemma render_fieldType_options_witness :
  ∃ options,
    render (fieldTypeListEffect [mkFieldType "INT"; mkFieldType "TEXT"])
      (mkState [rowA; rowB] "A") DataIndex.fieldType rowA
      = FormItem "fieldType" (Select options) ∧
    options.*1 = ["INT"%string; "TEXT"%string] ∧
    options.*2 = ["INT"%string; "TEXT"%string].
Proof.
  apply (proj1 (render_fieldType_options [mkFieldType "INT"; mkFieldType "TEXT"]
                  (mkState [rowA; rowB] "A") rowA eq_refl)).
Defined.

(** ** Add *)

(** The key of every record is a value [uuidv4()] returned earlier: no
    handler writes a key it did not draw. *)
Lemma reachableDrawing_keys source n st :
  reachableDrawing source n st →
  ∀ k, k ∈ keys (dataSource st) → ∃ i, i < n ∧ k = source i.
Proof.
  induction 1 as [|n st ev st' _ IH Hdraws Hstep]; intros k Hk.
  { simpl in Hk. by apply not_elem_of_nil in Hk. }
  assert (k ∈ keys (dataSource st) →
          ∃ i : nat, i < n + drawCount ev ∧ k = source i) as Hold.
  { intros Hin. destruct (IH k Hin) as (i & Hi & ->). exists i. split; [lia|done]. }
  destruct Hstep as
    [uuids td st| record st Hin| active over st l' Hdrag| newData st
    | uuid st| st| action st].
  - destruct td as [td|]; [|by apply Hold].
    simpl in Hdraws |- *. destruct (columnList td) as [cols|] eqn:Hcols.
    + rewrite (tableDetailsEffect_keys _ _ cols) in Hk by done.
      apply list_elem_of_fmap in Hk as (i & -> & Hi).
      apply elem_of_seq in Hi. exists (n + i). simpl.
      split; [lia|]. apply Hdraws. simpl. lia.
    + unfold tableDetailsEffect in Hk. rewrite Hcols in Hk. simpl in Hk.
      by apply not_elem_of_nil in Hk.
  - by apply Hold.
  - apply Hold. simpl in Hk.
    rewrite <- (keys_Permutation _ _ (onDragEnd_records (dataSource st) active over)).
    by rewrite Hdrag, records_defined.
  - apply Hold. by rewrite formChange_keys in Hk.
  - simpl in Hdraws, Hk |- *. unfold keys in Hk. rewrite fmap_app in Hk.
    apply elem_of_app in Hk as [Hk|Hk].
    + destruct (IH k Hk) as (i & Hi & ->). exists i. split; [lia|done].
    + apply list_elem_of_singleton in Hk. simpl in Hk. exists n.
      split; [lia|]. by rewrite Hk, Hdraws.
  - apply Hold. apply elem_of_keys in Hk as (r & Hr & Hkr).
    apply list_elem_of_filter in Hr as [_ Hr]. apply elem_of_keys. eauto.
  - apply Hold. destruct (moveData_Permutation action st) as [_ Hperm].
    by rewrite <- (keys_Permutation _ _ Hperm).
Qed.

(** The next value of a sequence without repetition is the key of no
    record. *)
Lemma reachableDrawing_next_fresh source n st :
  Inj (=) (=) source → reachableDrawing source n st →
  source n ∉ keys (dataSource st).
Proof.
  intros Hinj Hreach Hin.
  destruct (reachableDrawing_keys source n st Hreach _ Hin) as (i & Hi & Heq).
  apply Hinj in Heq. lia.
Qed.

(** With a sequence without repetition every draw is fresh, so the keys
    are pairwise different in every state reached. *)
Lemma reachableDrawing_NoDup source n st :
  Inj (=) (=) source → reachableDrawing source n st →
  NoDup (keys (dataSource st)).
Proof.
  intros Hinj. induction 1 as [|n st ev st' Hreach IH Hdraws Hstep];
    [apply NoDup_nil_2|].
  apply (step_NoDup st ev st' Hstep); [|done].
  destruct ev as [uuids [td|]| | | |uuid| |]; try done; simpl in Hdraws |- *.
  - destruct (columnList td) as [cols|]; [|done]. simpl in Hdraws.
    intros i j Hi Hj Heq. rewrite !Hdraws in Heq by done.
    apply Hinj in Heq. lia.
  - rewrite Hdraws. by apply (reachableDrawing_next_fresh source n st).
Qed.

Lemma sampleSource_length n : String.length (sampleSource n) = n.
Proof.
  induction n as [|n IH]; [done|].
  change (String.length (sampleSource (S n)))
    with (S (String.length (sampleSource n))).
  by rewrite IH.
Qed.

Lemma sampleSource_inj : Inj (=) (=) sampleSource.
Proof.
  intros n m Heq. apply (f_equal String.length) in Heq.
  by rewrite !sampleSource_length in Heq.
Qed.

(** C4.  For every state and every value [uuidv4()] returns, [addData]
    appends one record: the list is one longer, the new record is the last
    one, it has the empty name, no length, no type, is not nullable and has
    the drawn value as key; the session is the new record's key; the
    records that were there keep their positions.  The key is fresh and
    unique: in every state the component reaches while [uuidv4()] returns a
    sequence of values without repetition, the value drawn by [addData] is
    the key of no record of the list, and afterwards the keys are pairwise
    different and the new record is the only one that carries its key. *)
Theorem addData_appends (uuid : string) (st : State) :
  (∃ newData : Item.t,
     dataSource (addData uuid st) = dataSource st ++ [newData] ∧
     length (dataSource (addData uuid st)) = S (length (dataSource st)) ∧
     list.last (dataSource (addData uuid st)) = Some newData ∧
     newData = Item.mk uuid "" None None false None ∧
     editingKey (addData uuid st) = Item.key newData ∧
     (∀ n r, dataSource st !! n = Some r →
             dataSource (addData uuid st) !! n = Some r)) ∧
  (∀ (source : nat → string) (drawn : nat),
     Inj (=) (=) source → reachableDrawing source drawn st →
     uuid = source drawn →
     (uuid ∉ keys (dataSource st)) ∧
     NoDup (keys (dataSource (addData uuid st))) ∧
     (∀ n r, dataSource (addData uuid st) !! n = Some r →
             Item.key r = uuid → n = length (dataSource st))).
Proof.
  split.
  - eexists. split; [reflexivity|]. simpl. split_and!.
    + rewrite length_app. simpl. lia.
    + apply last_snoc.
    + done.
    + done.
    + intros n r Hr. by apply lookup_app_l_Some.
  - intros source drawn Hinj Hreach ->.
    pose proof (reachableDrawing_next_fresh source drawn st Hinj Hreach) as Hfresh.
    pose proof (reachableDrawing_NoDup source drawn st Hinj Hreach) as Hnd.
    split_and!; [done| |].
    + by apply addData_NoDup.
    + intros n r Hr Hk.
      apply lookup_snoc_Some in Hr as [[_ Hr]|[Hn _]]; [|done].
      exfalso. apply Hfresh. apply elem_of_keys. exists r. split; [|done].
      by eapply list_elem_of_lookup_2.
Qed.

Lemma addData_appends_witness :
  (sampleSource 2 ∉
     keys (dataSource (addData (sampleSource 1)
                         (addData (sampleSource 0) initialState)))) ∧
  NoDup (keys (dataSource
                 (addData (sampleSource 2)
                    (addData (sampleSource 1)
                       (addData (sampleSource 0) initialState))))) ∧
  (∀ n r,
     dataSource
       (addData (sampleSource 2)
          (addData (sampleSource 1) (addData (sampleSource 0) initialState)))
       !! n = Some r →
     Item.key r = sampleSource 2 →
     n = length (dataSource (addData (sampleSource 1)
                               (addData (sampleSource 0) initialState)))).
Proof.
  apply (proj2 (addData_appends (sampleSource 2)
                  (addData (sampleSource 1) (addData (sampleSource 0) initialState)))
           sampleSource 2 sampleSource_inj); [|reflexivity].
  apply (reachableDrawing_step sampleSource 1
           (addData (sampleSource 0) initialState) (AddClicked (sampleSource 1)));
    [|reflexivity|apply step_add].
  apply (reachableDrawing_step sampleSource 0 initialState
           (AddClicked (sampleSource 0)));
    [apply reachableDrawing_initial|reflexivity|apply step_add].
Defined.
